(** * tb_color: the pseudocolor pipeline of [modules/image_processor.py]

    A shallow embedding of [MedicalImageProcessor] (gray conversion, the
    contrast/brightness remap, band colouring, statistics, histogram and
    legend) together with the properties the specification states about it.

    Conventions.
    - A numpy array of shape [(h, w)] is the list of its [h] rows; a numpy
      array of shape [(h, w, c)] is the list of its rows of pixels, a pixel
      being the list of its [c] channel values.  Arrays are rectangular;
      8-bit arrays hold values in [0, 256).  Both facts are stated as
      hypotheses ([uint8_image]) where a property needs them.
    - A finite Python [float] is the rational ([Q]) it denotes.  The
      arithmetic of the contrast/brightness remap (binary32, inside OpenCV)
      and of [resize_image] (binary64, in Python) is modelled with its
      rounding, overflow included.  The statistics are computed in exact
      rationals: on 8-bit data the sums, means and medians are exactly
      representable in binary64, so the two agree there; the standard
      deviation is kept as its square (the variance), which is rational.
    - The functions of OpenCV and numpy are modelled after their documented
      behaviour; what the pipeline never inspects (the CLAHE filter, the
      image codecs, the interpolation of [cv2.resize]) is a parameter of the
      development. *)

From Stdlib Require Import ZArith QArith Qround Qabs Qcanon Qpower Lia Lqa.
From stdpp Require Import gmap strings list sorting.

Local Open Scope Z_scope.

(** ** Exceptions and fallible computations *)

(** A Python exception: its class and, when it was raised [from] another
    one, the exception it wraps ([__cause__]). *)
Inductive exn : Type :=
| Exn (cls : string)
| ExnFrom (cls : string) (cause : exn).

Definition exn_class (e : exn) : string :=
  match e with
  | Exn c => c
  | ExnFrom c _ => c
  end.

Definition exn_cause (e : exn) : option exn :=
  match e with
  | Exn _ => None
  | ExnFrom _ c => Some c
  end.

Definition cv2_error : exn := Exn "cv2.error".
Definition ValueError : exn := Exn "ValueError".
Definition KeyError : exn := Exn "KeyError".
Definition AttributeError : exn := Exn "AttributeError".
Definition OverflowError : exn := Exn "OverflowError".
Definition ZeroDivisionError : exn := Exn "ZeroDivisionError".

Definition result (A : Type) : Type := (exn + A)%type.

Definition ret {A} (a : A) : result A := inr a.
Definition raise {A} (e : exn) : result A := inl e.
Definition bind {A B} (m : result A) (k : A -> result B) : result B :=
  match m with
  | inl e => inl e
  | inr a => k a
  end.

Notation "x <- m ;; k" := (bind m (fun x => k))
  (at level 100, m at next level, right associativity).

(** [try: body except Exception as e: handler e]. *)
Definition try_except {A} (body : result A) (handler : exn -> result A) : result A :=
  match body with
  | inl e => handler e
  | inr a => inr a
  end.

(** Every method of the class ends in the same two handlers,
    [except cv2.error as e: logger.error(...); raise] and
    [except Exception as e: logger.error(...); raise]: the exception is logged
    and the very same exception is raised again. *)
Definition log_and_reraise {A} (e : exn) : result A := raise e.

(** ** Arrays *)

(** An image handed to the processor: a gray buffer of shape [(h, w)] or a
    multi-channel buffer of shape [(h, w, c)]. *)
Inductive ndarray : Type :=
| Arr2 (a : list (list Z))
| Arr3 (a : list (list (list Z))).

Definition shape0 {A} (a : list (list A)) : nat := length a.
Definition shape1 {A} (a : list (list A)) : nat :=
  match a with
  | [] => 0%nat
  | r :: _ => length r
  end.
Definition shape2 (a : list (list (list Z))) : nat :=
  match a with
  | (p :: _) :: _ => length p
  | _ => 0%nat
  end.

(** [len(image.shape)] *)
Definition ndim (image : ndarray) : nat :=
  match image with
  | Arr2 _ => 2%nat
  | Arr3 _ => 3%nat
  end.

(** [a.flatten()] of a 2-D array: row-major order. *)
Definition flatten (a : list (list Z)) : list Z := concat a.

(** [image.size]: the number of elements. *)
Definition ndarray_size (image : ndarray) : nat :=
  match image with
  | Arr2 a => length (flatten a)
  | Arr3 a => length (concat (concat a))
  end.

(** The element at row [r], column [j] of an image. *)
Definition cell {A} (img : list (list A)) (r j : nat) : option A :=
  match img !! r with
  | Some row => row !! j
  | None => None
  end.

Definition is_u8 (v : Z) : bool := (0 <=? v) && (v <? 256).

Definition rectangular {A} (a : list (list A)) : bool :=
  forallb (fun r => (length r =? shape1 a)%nat) a.

(** A well-formed array of shape [(h, w)] and dtype [uint8]. *)
Definition uint8_image (a : list (list Z)) : bool :=
  rectangular a && forallb (forallb is_u8) a.

(** ** Colours and bands *)

(** A colour is the triple of channel values written into a pixel, in the
    channel order of the buffer; a band is [(min_val, max_val, color)]. *)
Definition color : Type := (Z * Z * Z)%type.
Definition band : Type := (Z * Z * color)%type.

Definition black : color := (0, 0, 0).

Definition is_u8_color (c : color) : bool :=
  match c with
  | (c0, c1, c2) => is_u8 c0 && is_u8 c1 && is_u8 c2
  end.

(** Storing into a [uint8] buffer keeps the low eight bits. *)
Definition to_uint8 (v : Z) : Z := v mod 256.
Definition color_to_uint8 (c : color) : color :=
  match c with
  | (c0, c1, c2) => (to_uint8 c0, to_uint8 c1, to_uint8 c2)
  end.

(** A colour image of shape [(h, w, 3)] seen as a generic array. *)
Definition pixel_list (c : color) : list Z :=
  match c with
  | (c0, c1, c2) => [c0; c1; c2]
  end.

Definition color_array (img : list (list color)) : ndarray :=
  Arr3 (map (map pixel_list) img).

(** [(lo <= v) & (v < hi)] *)
Definition in_band (lo hi v : Z) : bool := (lo <=? v) && (v <? hi).

(** ** numpy *)

(** [np.zeros((h, w, 3), dtype=np.uint8)] *)
Definition np_zeros3 (h w : nat) : list (list color) := replicate h (replicate w black).

Definition Zsum (l : list Z) : Z := foldr Z.add 0 l.
Definition Qsum (l : list Q) : Q := foldr Qplus (0 # 1)%Q l.

(** [np.min] and [np.max] raise [ValueError] on a zero-size array. *)
Definition np_min (a : list Z) : result Z :=
  match a with
  | [] => raise ValueError
  | x :: l => ret (foldr Z.min x l)
  end.

Definition np_max (a : list Z) : result Z :=
  match a with
  | [] => raise ValueError
  | x :: l => ret (foldr Z.max x l)
  end.

(** [np.mean]: the sum divided by the number of elements. *)
Definition np_mean (a : list Z) : Q :=
  (inject_Z (Zsum a) / inject_Z (Z.of_nat (length a)))%Q.

Definition np_meanQ (a : list Q) : Q :=
  (Qsum a / inject_Z (Z.of_nat (length a)))%Q.

(** [np.var] with the default [ddof=0]: the mean of the squared deviations
    from the mean; [np.std] is its square root. *)
Definition np_var (a : list Z) : Q :=
  let m := np_mean a in
  np_meanQ (map (fun x => ((inject_Z x - m) * (inject_Z x - m))%Q) a).

(** [np.median] of the flattened array: the buffer is ordered, the middle
    element (odd size) or the two middle elements (even size) are selected and
    averaged. *)
Definition np_median (a : list Z) : Q :=
  let part := merge_sort Z.le a in
  let n := length a in
  let index := (n / 2)%nat in
  if Nat.odd n
  then np_mean (take 1 (drop index part))
  else np_mean (take 2 (drop (index - 1) part)).

(** [np.bincount(x, minlength=m)]: negative entries are refused; the result
    has [max(m, amax(x) + 1)] bins, all zero at first, and every entry [v]
    of [x] adds one to bin [v]. *)
Definition np_bincount (x : list Z) (minlength : nat) : result (list Z) :=
  if existsb (fun v => v <? 0) x then raise ValueError
  else
    let n := Nat.max minlength (Z.to_nat (foldr Z.max (-1) x + 1)) in
    ret (foldl (fun counts v => alter Z.succ (Z.to_nat v) counts) (replicate n 0) x).

(** Python's bound of a slice [lo:hi] (step 1) on an axis of length [n]:
    a negative bound counts from the end, and both are cut to [0, n]. *)
Definition slice_bound (i n : Z) : Z :=
  if i <? 0 then Z.max (i + n) 0 else Z.min i n.

(** ** Binary floating point *)

(** Round to the nearest integer, ties to even: the rounding of the hardware,
    of C's [rint] and of OpenCV's [cvRound]. *)
Definition cvRound (x : Q) : Z :=
  let f := Qfloor x in
  match ((x - inject_Z f) ?= (1 # 2))%Q with
  | Lt => f
  | Gt => f + 1
  | Eq => if Z.even f then f else f + 1
  end.

Definition pow2 (e : Z) : Q := Qpower 2 e.

(** The exponent of [x <> 0]: the [e] with [2^e <= |x| < 2^(e+1)]. *)
Definition ilog2 (x : Q) : Z :=
  let e := Z.log2 (Z.abs (Qnum x)) - Z.log2 (Zpos (Qden x)) in
  if Qle_bool (pow2 e) (Qabs x) then e else e - 1.

(** Rounding to nearest, ties to even, onto the numbers with [prec]
    significant bits and exponents from [emin] on (below [2^(emin+prec-1)]
    the grid is that of the subnormal numbers). *)
Definition round_to (prec emin : Z) (x : Q) : Q :=
  if Qeq_bool x 0 then 0%Q
  else
    let q := Z.max (ilog2 x - (prec - 1)) emin in
    Qred (inject_Z (cvRound (x / pow2 q)) * pow2 q).

(** The floating-point number nearest to [x]; [None] stands for the infinity
    that a magnitude of [2^emax] or more rounds to. *)
Definition binary (prec emin emax : Z) (x : Q) : option Q :=
  let r := round_to prec emin x in
  if Qle_bool (pow2 emax) (Qabs r) then None else Some r.

(** C's [float] and [double] (Python's [float]). *)
Definition binary32 : Q -> option Q := binary 24 (-149) 128.
Definition binary64 : Q -> option Q := binary 53 (-1074) 1024.

(** Bounds of the error of one rounding to binary64: the factor
    [1 + 2^-53] and, for the subnormal numbers, a term below [2^-100]. *)
Definition D64 : Q := 9007199254740993 # 9007199254740992.
Definition E64 : Q := 1 # 1267650600228229401496703205376.

(** A Python [int] that converts to a [float]. *)
Definition fits_double (n : Z) : bool :=
  match binary64 (inject_Z n) with
  | Some _ => true
  | None => false
  end.

(** ** OpenCV *)

(** [cv2.cvtColor(src, cv2.COLOR_BGR2GRAY)] on 8-bit data: fixed-point luma
    with 15 fractional bits, rounded to nearest.  The call asserts a
    non-empty source with 3 or 4 channels (a fourth channel is ignored). *)
Definition BY15 : Z := 3735.
Definition GY15 : Z := 19235.
Definition RY15 : Z := 9798.
Definition gray_shift : Z := 15.

Definition CV_DESCALE (x n : Z) : Z := Z.shiftr (x + Z.shiftl 1 (n - 1)) n.

Definition bgr2gray (p : list Z) : Z :=
  match p with
  | b :: g :: r :: _ => CV_DESCALE (b * BY15 + g * GY15 + r * RY15) gray_shift
  | _ => 0
  end.

Definition cv2_cvtColor_BGR2GRAY (src : list (list (list Z))) : result (list (list Z)) :=
  if (shape0 src * shape1 src * shape2 src =? 0)%nat then raise cv2_error
  else if negb ((shape2 src =? 3)%nat || (shape2 src =? 4)%nat) then raise cv2_error
  else ret (map (map bgr2gray) src).

(** [saturate_cast<uchar>] of an [int]. *)
Definition saturate_cast_uchar (v : Z) : Z :=
  if v <? 0 then 0 else if 255 <? v then 255 else v.

(** [cvRound] of a [float]: the nearest [int], ties to even; a value beyond
    the range of [int] (and an infinity or a NaN) converts to [INT_MIN], the
    result of the x86 conversion instruction. *)
Definition INT_MIN : Z := - 2 ^ 31.

Definition cvRound_int (x : Q) : Z :=
  let r := cvRound x in
  if (r <? INT_MIN) || (- INT_MIN <=? r) then INT_MIN else r.

(** One element of [cv2.convertScaleAbs]:
    [dst = saturate_cast<uchar>(|src * alpha + beta|)], computed in single
    precision.  [alpha] and [beta] arrive as doubles and are cast to [float];
    the element is converted to [float]; the product and the sum are one
    fused multiply-add (the AVX2 kernels of x86-64), hence rounded once.  A
    result that is not finite converts to [INT_MIN] and so saturates to 0. *)
Definition scale_abs (alpha beta : Q) (src : Z) : Z :=
  match binary32 alpha, binary32 beta, binary32 (inject_Z src) with
  | Some a, Some b, Some s =>
      match binary32 (s * a + b) with
      | Some v => saturate_cast_uchar (cvRound_int (Qabs v))
      | None => 0
      end
  | _, _, _ => 0
  end.

(** ** The processor *)

(** The dictionary returned by [calculate_image_stats]; the value under
    ["std"] is kept as its square. *)
Record stats : Type := Stats {
  s_min : Q;
  s_max : Q;
  s_mean : Q;
  s_std_sq : Q;
  s_width : Q;
  s_height : Q;
  s_median : Q
}.

Section MedicalImageProcessor.

(** [config.COLOR_SCHEMES]: scheme name to ordered bands. *)
Variable COLOR_SCHEMES : gmap string (list band).

(** [clahe.apply] of the cached [cv2.createCLAHE(2.0, (8, 8))] object. *)
Variable CLAHE_apply : list (list Z) -> result (list (list Z)).

(** [cv2.convertScaleAbs(src, alpha=alpha, beta=beta)].  The binding parses
    [beta] as a double and refuses (overload resolution fails, [cv2.error]) an
    [int] too large for one.  On a zero-size source the result is an empty
    matrix, which the binding hands back as [None]. *)
Definition cv2_convertScaleAbs (src : list (list Z)) (alpha : Q) (beta : Z)
  : result (option (list (list Z))) :=
  match binary64 (inject_Z beta) with
  | None => raise cv2_error
  | Some b =>
      if (shape0 src * shape1 src =? 0)%nat then ret None
      else ret (Some (map (map (scale_abs alpha b)) src))
  end.

(** The debug line of [preprocess_image] formats [gray.shape] (an f-string,
    evaluated at every log level): [None] has no such attribute. *)
Definition log_shape (gray : option (list (list Z))) : result (list (list Z)) :=
  match gray with
  | None => raise AttributeError
  | Some a => ret a
  end.

(** A 3-D buffer goes through [cv2.cvtColor]; a 2-D buffer is returned as it
    is (or as a copy, for another dtype than [uint8]: the same values). *)
Definition _to_gray (image : ndarray) : result (list (list Z)) :=
  match image with
  | Arr3 a => cv2_cvtColor_BGR2GRAY a
  | Arr2 a => ret a
  end.

Definition preprocess_image (image : ndarray) (apply_clahe : bool)
           (contrast : Q) (brightness : Z) : result (list (list Z)) :=
  try_except
    (gray <- _to_gray image ;;
     gray <- (if apply_clahe then CLAHE_apply gray else ret gray) ;;
     gray <- cv2_convertScaleAbs gray contrast brightness ;;
     gray <- log_shape gray ;;
     ret gray)
    log_and_reraise.

(** [COLOR_SCHEMES.get(color_scheme, COLOR_SCHEMES["标准"])]: the default
    is an argument of [get], so it is looked up (and must exist) on every
    call. *)
Definition get_layers (color_scheme : string) : result (list band) :=
  match COLOR_SCHEMES !! "标准" with
  | None => raise KeyError
  | Some standard => ret (default standard (COLOR_SCHEMES !! color_scheme))
  end.

(** [mask = (gray >= min_val) & (gray < max_val); color_img[mask] = color] *)
Definition assign_masked (gray : list (list Z)) (color_img : list (list color)) (b : band)
  : list (list color) :=
  match b with
  | (min_val, max_val, c) =>
      zip_with (zip_with (fun old v => if in_band min_val max_val v
                                       then color_to_uint8 c else old))
               color_img gray
  end.

Definition enhance_pseudocolor (image : ndarray) (color_scheme : string)
  : result (list (list color)) :=
  try_except
    (gray <- _to_gray image ;;
     let color_img := np_zeros3 (shape0 gray) (shape1 gray) in
     layers <- get_layers color_scheme ;;
     ret (foldl (assign_masked gray) color_img layers))
    log_and_reraise.

Definition calculate_image_stats (image : ndarray) : result stats :=
  try_except
    (gray <- _to_gray image ;;
     mn <- np_min (flatten gray) ;;
     mx <- np_max (flatten gray) ;;
     ret {| s_min := inject_Z mn;
            s_max := inject_Z mx;
            s_mean := np_mean (flatten gray);
            s_std_sq := np_var (flatten gray);
            s_width := inject_Z (Z.of_nat (shape1 gray));
            s_height := inject_Z (Z.of_nat (shape0 gray));
            s_median := np_median (flatten gray) |})
    log_and_reraise.

(** [legend[:, min_val:max_val] = color] on the 256 columns of every row. *)
Definition assign_columns (legend : list (list color)) (b : band) : list (list color) :=
  match b with
  | (min_val, max_val, c) =>
      let start := slice_bound min_val 256 in
      let stop := slice_bound max_val 256 in
      map (imap (fun j old => if in_band start stop (Z.of_nat j)
                              then color_to_uint8 c else old))
          legend
  end.

Definition generate_legend (color_scheme : string) : result (list (list color)) :=
  try_except
    (layers <- get_layers color_scheme ;;
     let legend := np_zeros3 40 256 in
     ret (foldl assign_columns legend layers))
    log_and_reraise.

Definition compute_histogram (image : ndarray) : result (list Z) :=
  try_except
    (gray <- _to_gray image ;;
     counts <- np_bincount (flatten gray) 256 ;;
     ret counts)
    log_and_reraise.

End MedicalImageProcessor.

(** ** The vocabulary of the specification *)

(** What the specification writes for the contrast and brightness step:
    [clamp(round(in * contrast_gain + brightness_offset), 0, 255)]. *)
Definition clamp (v lo hi : Z) : Z := Z.max lo (Z.min v hi).
Definition spec_remap (contrast_gain : Q) (brightness_offset : Z) (v : Z) : Z :=
  clamp (cvRound (inject_Z v * contrast_gain + inject_Z brightness_offset)) 0 255.

(** [lo <= std <= hi] for the standard deviation behind [st], read on its
    square. *)
Definition std_between (st : stats) (lo hi : Q) : Prop :=
  (0 <= lo)%Q /\ (lo * lo <= s_std_sq st)%Q /\ (s_std_sq st <= hi * hi)%Q.

(** The number of entries of [a] that satisfy [p]. *)
Definition count_if (p : Z -> bool) (a : list Z) : nat := length (List.filter p a).

(** The number of entries of [x] equal to [i]. *)
Definition count_eq (i : Z) (x : list Z) : Z :=
  Z.of_nat (length (filter (fun v => v = i) x)).

(** The colour a pixel of intensity [v] ends with when the bands are applied
    in order, each overwriting the previous ones, starting from [init]. *)
Definition paint_from (init : color) (layers : list band) (v : Z) : color :=
  foldl (fun acc b => match b with (lo, hi, c) => if in_band lo hi v then c else acc end)
        init layers.

Definition paint (layers : list band) (v : Z) : color := paint_from black layers v.

(** The band [b] holds the intensity [v]. *)
Definition band_holds (v : Z) (b : band) : bool :=
  match b with
  | (lo, hi, _) => in_band lo hi v
  end.

(** The last band of the scheme that holds [v], if any. *)
Definition last_band (layers : list band) (v : Z) : option band :=
  find (band_holds v) (rev layers).

(** A band as it takes effect in a [uint8] image. *)
Definition store_band (b : band) : band :=
  match b with
  | (lo, hi, c) => (lo, hi, color_to_uint8 c)
  end.

(** A band as [generate_legend] applies it: the bounds go through Python's
    slice rules on the 256 columns, the colour through the [uint8] store. *)
Definition slice_band (b : band) : band :=
  match b with
  | (lo, hi, c) => (slice_bound lo 256, slice_bound hi 256, color_to_uint8 c)
  end.



(** A band of the intensity domain: bounds that are not negative and an
    8-bit colour. *)
Definition intensity_band (b : band) : bool :=
  match b with
  | (lo, hi, c) => (0 <=? lo) && (0 <=? hi) && is_u8_color c
  end.

(** Two bands share no intensity. *)
Definition bands_disjoint (b1 b2 : band) : bool :=
  match b1, b2 with
  | (lo1, hi1, _), (lo2, hi2, _) =>
      (hi1 <=? lo1) || (hi2 <=? lo2) || (hi1 <=? lo2) || (hi2 <=? lo1)
  end.

Fixpoint pairwise_disjoint (layers : list band) : bool :=
  match layers with
  | [] => true
  | b :: rest => forallb (bands_disjoint b) rest && pairwise_disjoint rest
  end.

(** Every intensity of [0, 256) is in some band. *)
Definition exhaustive (layers : list band) : bool :=
  forallb (fun i => existsb (band_holds (Z.of_nat i)) layers) (seq 0 256).

(** Each band's colour is 8-bit and, read back as a BGR pixel, has its luma
    inside the band. *)
Definition luma_stable (layers : list band) : bool :=
  forallb (fun b => match b with
                    | (lo, hi, c) => is_u8_color c && in_band lo hi (bgr2gray (pixel_list c))
                    end) layers.

(** ** Sample data *)

(** The image, the scheme and the expected colour image of the end-to-end
    scenario. *)
Definition scenario_gray : list (list Z) := [[0; 100]; [150; 255]].

Definition scenario_scheme : list band :=
  [(0, 100, (0, 0, 255)); (100, 200, (0, 255, 0)); (200, 256, (255, 0, 0))].

Definition scenario_output : list (list color) :=
  [[(0, 0, 255); (0, 255, 0)]; [(0, 255, 0); (255, 0, 0)]].

(** Pure red and pure blue in OpenCV's BGR channel order, and white. *)
Definition RED : color := (0, 0, 255).
Definition BLUE : color := (255, 0, 0).
Definition WHITE : color := (255, 255, 255).


(** Two schemes that split [0,256) in two bands: one paints the dark half
    black and the bright half white, the other does the opposite. *)
Definition two_tone : list band := [(0, 128, black); (128, 256, WHITE)].
Definition inverted : list band := [(0, 128, WHITE); (128, 256, black)].

(** A small BGR image: one row of a blue, a white and a black pixel. *)
Definition sample_bgr : list (list (list Z)) := [[[255; 0; 0]; [255; 255; 255]; [0; 0; 0]]].

(** ** The other methods of the processor *)

(** [image.shape[:2]]: height and width. *)
Definition shape_hw (image : ndarray) : nat * nat :=
  match image with
  | Arr2 a => (shape0 a, shape1 a)
  | Arr3 a => (shape0 a, shape1 a)
  end.

(** Python's [a / b] on two [int]s: the correctly rounded quotient;
    [OverflowError] when it is too large for a [float]. *)
Definition py_truediv (a b : Z) : result Q :=
  if b =? 0 then raise ZeroDivisionError
  else match binary64 (inject_Z a / inject_Z b) with
       | Some q => ret q
       | None => raise OverflowError
       end.

(** [float(n)], as [int * float] converts its left operand. *)
Definition py_float (n : Z) : result Q :=
  match binary64 (inject_Z n) with
  | Some x => ret x
  | None => raise OverflowError
  end.

(** Truncation towards zero. *)
Definition py_trunc (x : Q) : Z := if Qle_bool 0 x then Qfloor x else Qceiling x.

(** [int(n * x)] for an [int] [n] and a [float] [x]: the product is rounded
    and may overflow to an infinity, which [int] refuses. *)
Definition py_int_mul (n : Z) (x : Q) : result Z :=
  f <- py_float n ;;
  match binary64 (f * x) with
  | Some p => ret (py_trunc p)
  | None => raise OverflowError
  end.

(** [min(a, b)]: the first argument unless the second is smaller. *)
Definition py_min (a b : Q) : Q := if Qle_bool a b then a else b.

(** A value the binding can hand to OpenCV as a C [int]. *)
Definition fits_int (n : Z) : bool := (INT_MIN <=? n) && (n <? - INT_MIN).

Section Resize.

(** The pixels [cv2.resize] computes with [interpolation=cv2.INTER_AREA] for
    a target of the given width and height. *)
Variable INTER_AREA : ndarray -> nat -> nat -> ndarray.

(** [cv2.resize(src, (width, height), interpolation=cv2.INTER_AREA)]: the
    binding refuses a size that is no pair of C [int]s, and OpenCV asserts that
    neither the source nor the requested size is empty; all three fail with
    [cv2.error]. *)
Definition cv2_resize (src : ndarray) (dsize : Z * Z) : result ndarray :=
  if negb (fits_int (fst dsize) && fits_int (snd dsize)) then raise cv2_error
  else if (fst (shape_hw src) * snd (shape_hw src) =? 0)%nat then raise cv2_error
  else if (fst dsize <=? 0) || (snd dsize <=? 0) then raise cv2_error
  else ret (INTER_AREA src (Z.to_nat (fst dsize)) (Z.to_nat (snd dsize))).

Definition resize_image (image : ndarray) (max_size : Z * Z) : result ndarray :=
  try_except
    (let height := Z.of_nat (fst (shape_hw image)) in
     let width := Z.of_nat (snd (shape_hw image)) in
     if (fst max_size <? width) || (snd max_size <? height) then
       sx <- py_truediv (fst max_size) width ;;
       sy <- py_truediv (snd max_size) height ;;
       let scale := py_min sx sy in
       new_width <- py_int_mul width scale ;;
       new_height <- py_int_mul height scale ;;
       cv2_resize image (new_width, new_height)
     else ret image)
    log_and_reraise.

End Resize.

(** A PIL image: its mode, its size (width, height) and its pixels. *)
Record PIL_Image : Type := {
  im_mode : string;
  im_size : nat * nat;
  im_data : list (list color)
}.

(** [cv2.cvtColor(src, cv2.COLOR_BGR2RGB)]: the first and third channels
    change places (a fourth channel is dropped); same assertions as for
    [COLOR_BGR2GRAY]. *)
Definition bgr2rgb (p : list Z) : color :=
  match p with
  | b :: g :: r :: _ => (r, g, b)
  | _ => black
  end.

Definition cv2_cvtColor_BGR2RGB (src : list (list (list Z))) : result (list (list color)) :=
  if (shape0 src * shape1 src * shape2 src =? 0)%nat then raise cv2_error
  else if negb ((shape2 src =? 3)%nat || (shape2 src =? 4)%nat) then raise cv2_error
  else ret (map (map bgr2rgb) src).

(** The colour with its first and third channels exchanged. *)
Definition swap_channels (c : color) : color :=
  match c with
  | (c0, c1, c2) => (c2, c1, c0)
  end.

(** [cv2.cvtColor(src, cv2.COLOR_GRAY2RGB)] on a single-channel buffer. *)
Definition cv2_cvtColor_GRAY2RGB (src : list (list Z)) : result (list (list color)) :=
  if (shape0 src * shape1 src =? 0)%nat then raise cv2_error
  else ret (map (map (fun v => (v, v, v))) src).

(** [Image.fromarray] of an 8-bit buffer of shape [(h, w, 3)]. *)
Definition Image_fromarray (rgb_image : list (list color)) : PIL_Image :=
  {| im_mode := "RGB";
     im_size := (shape1 rgb_image, shape0 rgb_image);
     im_data := rgb_image |}.

Definition convert_to_pil (image : ndarray) : result PIL_Image :=
  try_except
    (rgb_image <- match image with
                  | Arr3 a => cv2_cvtColor_BGR2RGB a
                  | Arr2 a => cv2_cvtColor_GRAY2RGB a
                  end ;;
     ret (Image_fromarray rgb_image))
    log_and_reraise.

(** The equalizer objects: [cv2.createCLAHE] makes a new object on every
    call, told apart here by a serial number; the class keeps the ones it made
    in [_clahe_cache], keyed by [(clip_limit, tile_grid_size)]. *)
Record CLAHE : Type := {
  clahe_serial : nat;
  clipLimit : Qc;
  tileGridSize : Z * Z
}.

Record clahe_state : Type := {
  _clahe_cache : gmap (Qc * (Z * Z)) CLAHE;
  clahe_created : nat
}.

Definition cv2_createCLAHE (clip_limit : Qc) (tile_grid_size : Z * Z) (st : clahe_state)
  : CLAHE * clahe_state :=
  ({| clahe_serial := clahe_created st;
      clipLimit := clip_limit;
      tileGridSize := tile_grid_size |},
   {| _clahe_cache := _clahe_cache st;
      clahe_created := S (clahe_created st) |}).

Definition _get_clahe (clip_limit : Qc) (tile_grid_size : Z * Z) (st : clahe_state)
  : CLAHE * clahe_state :=
  let cache_key := (clip_limit, tile_grid_size) in
  match _clahe_cache st !! cache_key with
  | Some clahe => (clahe, st)
  | None =>
      let '(clahe, st1) := cv2_createCLAHE clip_limit tile_grid_size st in
      (clahe, {| _clahe_cache := <[cache_key := clahe]> (_clahe_cache st1);
                 clahe_created := clahe_created st1 |})
  end.

(** Every cached object was made for the key it is stored under, carries a
    serial number already given out, and no two keys share an object. *)
Definition cache_consistent (st : clahe_state) : Prop :=
  (forall k c, _clahe_cache st !! k = Some c ->
               (clipLimit c, tileGridSize c) = k /\ (clahe_serial c < clahe_created st)%nat)
  /\ (forall k1 k2 c1 c2,
         _clahe_cache st !! k1 = Some c1 -> _clahe_cache st !! k2 = Some c2 ->
         clahe_serial c1 = clahe_serial c2 -> k1 = k2).

(** ** The history manager *)

(** A shape as it reaches the history: the tuple numpy gives, or the list a
    JSON import gives. *)
Inductive shape_value : Type :=
| ShapeTuple (dims : list Z)
| ShapeList (dims : list Z).

Definition shape_dims (s : shape_value) : list Z :=
  match s with
  | ShapeTuple dims => dims
  | ShapeList dims => dims
  end.

(** [HistoryEntry], and the dictionary [to_dict] makes of it: the same six
    fields. *)
Record HistoryEntry : Type := {
  h_timestamp : string;
  h_filename : string;
  h_color_scheme : string;
  h_stats : gmap string Q;
  h_original_shape : shape_value;
  h_enhanced_shape : shape_value
}.

(** The [entry_data] dictionary of [add_entry]: each key may be missing. *)
Record entry_data : Type := {
  d_filename : option string;
  d_color_scheme : option string;
  d_stats : option (gmap string Q);
  d_original_shape : option shape_value;
  d_enhanced_shape : option shape_value
}.

(** The fields of [HistoryManager] the methods below read. *)
Record HistoryManager : Type := {
  max_entries : Z;
  db_enabled : bool
}.

(** A row of the table [history]. *)
Record row : Type := {
  r_id : Z;
  r_timestamp : string;
  r_filename : string;
  r_color_scheme : string;
  r_stats_json : string;
  r_original_width : Z;
  r_original_height : Z;
  r_enhanced_width : Z;
  r_enhanced_height : Z
}.

(** The database behind [_get_conn], once [init_db] has made the table:
    whether connecting fails (and with what), the rows of [history] in
    increasing order of [id], and the last [id] the table gave out. *)
Record database : Type := {
  db_connect_error : option exn;
  db_rows : list row;
  db_last_id : Z
}.

(** The [filters] dictionary of the two query methods. *)
Record query_filters : Type := {
  filename_contains : option string;
  f_color_scheme : option string;
  start_ts : option string;
  end_ts : option string
}.

(** Python's [l[:n]]. *)
Definition py_prefix {A} (n : Z) (l : list A) : list A :=
  take (Z.to_nat (slice_bound n (Z.of_nat (length l)))) l.

(** Python's [l[i:j]]. *)
Definition py_slice {A} (i j : Z) (l : list A) : list A :=
  let start := slice_bound i (Z.of_nat (length l)) in
  let stop := slice_bound j (Z.of_nat (length l)) in
  take (Z.to_nat (stop - start)) (drop (Z.to_nat start) l).

(** A value used as a condition: [None] and the empty string are false. *)
Definition truthy (s : option string) : option string :=
  match s with
  | Some "" => None
  | other => other
  end.

(** [LIMIT n OFFSET k] (SQLite: a negative limit is no limit, a negative
    offset is none). *)
Definition sql_limit_offset {A} (n k : Z) (rows : list A) : list A :=
  let rest := drop (Z.to_nat k) rows in
  if n <? 0 then rest else take (Z.to_nat n) rest.

Section History.

(** [json.dumps(stats, ensure_ascii=False)] and [json.loads]. *)
Variable json_dumps : gmap string Q -> string.
Variable json_loads : string -> result (gmap string Q).

(** The comparisons of the database engine: [value LIKE pattern],
    [a = b] and [a <= b] on text. *)
Variable sql_like : string -> string -> bool.
Variable sql_eq : string -> string -> bool.
Variable sql_le : string -> string -> bool.

Definition _get_conn (db : database) : result unit :=
  match db_connect_error db with
  | Some e => raise e
  | None => ret tt
  end.

(** [INSERT INTO history (timestamp, filename, color_scheme, stats_json,
    original_width, original_height, enhanced_width, enhanced_height)
    VALUES (...)] followed by [commit]: the row gets the next [id]. *)
Definition sql_insert (values : string * string * string * string * Z * Z * Z * Z)
           (db : database) : database :=
  match values with
  | (ts, fn, cs, sj, ow, oh, ew, eh) =>
      {| db_connect_error := db_connect_error db;
         db_rows := db_rows db ++ [ {| r_id := db_last_id db + 1;
                                       r_timestamp := ts;
                                       r_filename := fn;
                                       r_color_scheme := cs;
                                       r_stats_json := sj;
                                       r_original_width := ow;
                                       r_original_height := oh;
                                       r_enhanced_width := ew;
                                       r_enhanced_height := eh |} ];
         db_last_id := db_last_id db + 1 |}
  end.

(** The four sizes [save_entry_to_db] stores: read from a shape only when
    it is a tuple of two or more dimensions. *)
Definition entry_sizes (shape : shape_value) : Z * Z :=
  match shape with
  | ShapeTuple (h :: w :: _) => (w, h)
  | _ => (0, 0)
  end.

Definition save_entry_to_db (entry : HistoryEntry) (db : database) : result unit * database :=
  match _get_conn db with
  | inl e => (inl e, db)
  | inr _ =>
      let stats_json := json_dumps (h_stats entry) in
      let '(ow, oh) := entry_sizes (h_original_shape entry) in
      let '(ew, eh) := entry_sizes (h_enhanced_shape entry) in
      (ret tt,
       sql_insert (h_timestamp entry, h_filename entry, h_color_scheme entry,
                   stats_json, ow, oh, ew, eh) db)
  end.

(** The sizes [save_entries_to_db] stores: the first two dimensions of any
    shape that has them. *)
Definition batch_sizes (shape : shape_value) : Z * Z :=
  match shape_dims shape with
  | h :: w :: _ => (w, h)
  | _ => (0, 0)
  end.

Definition save_entries_to_db (entries : list HistoryEntry) (db : database)
  : result unit * database :=
  match entries with
  | [] => (ret tt, db)
  | _ =>
      match _get_conn db with
      | inl e => (inl e, db)
      | inr _ =>
          let data :=
            map (fun entry =>
                   let stats_json := json_dumps (h_stats entry) in
                   let '(ow, oh) := batch_sizes (h_original_shape entry) in
                   let '(ew, eh) := batch_sizes (h_enhanced_shape entry) in
                   (h_timestamp entry, h_filename entry, h_color_scheme entry,
                    stats_json, ow, oh, ew, eh)) entries in
          (ret tt, foldl (fun d values => sql_insert values d) db data)
      end
  end.

(** [add_entry]: the entry is built with the defaults of the missing keys
    and inserted at the head of the caller's list (in place); the database
    write follows when enabled; the list returned is cut to [max_entries].
    The result is what the call returns or raises, the content of the
    caller's list afterwards, and the database afterwards. *)
Definition new_entry (now : string) (data : entry_data) : HistoryEntry :=
  {| h_timestamp := now;
     h_filename := default "unknown" (d_filename data);
     h_color_scheme := default "标准" (d_color_scheme data);
     h_stats := default ∅ (d_stats data);
     h_original_shape := default (ShapeTuple [0; 0]) (d_original_shape data);
     h_enhanced_shape := default (ShapeTuple [0; 0]) (d_enhanced_shape data) |}.

Definition add_entry (self : HistoryManager) (now : string)
           (history_list : list HistoryEntry) (data : entry_data) (db : database)
  : result (list HistoryEntry) * list HistoryEntry * database :=
  let entry := new_entry now data in
  let history_list := entry :: history_list in
  let '(saved, db1) := if db_enabled self then save_entry_to_db entry db
                       else (ret tt, db) in
  match saved with
  | inl e => (inl e, history_list, db1)
  | inr _ =>
      if max_entries self <? Z.of_nat (length history_list)
      then (ret (py_prefix (max_entries self) history_list), history_list, db1)
      else (ret history_list, history_list, db1)
  end.

Definition clear_history : list HistoryEntry := [].

Definition get_recent_entries (history_list : list HistoryEntry) (count : Z)
  : list HistoryEntry :=
  py_prefix count history_list.

(** The [WHERE] clause both query methods build from the filters. *)
Definition where_clause (filters : option query_filters) : list (row -> bool) :=
  match filters with
  | None => []
  | Some f =>
      match truthy (filename_contains f) with
      | Some s => [fun r => sql_like (r_filename r) ("%" ++ s ++ "%")]
      | None => []
      end
      ++ match truthy (f_color_scheme f) with
         | Some s => if String.eqb s "全部" then []
                     else [fun r => sql_eq (r_color_scheme r) s]
         | None => []
         end
      ++ match truthy (start_ts f) with
         | Some s => [fun r => sql_le s (r_timestamp r)]
         | None => []
         end
      ++ match truthy (end_ts f) with
         | Some s => [fun r => sql_le (r_timestamp r) s]
         | None => []
         end
  end.

Definition sql_where (conds : list (row -> bool)) (rows : list row) : list row :=
  List.filter (fun r => forallb (fun c => c r) conds) rows.

(** The entry [load_history_from_db] makes of a selected row. *)
Definition row_entry (r : row) : HistoryEntry :=
  {| h_timestamp := r_timestamp r;
     h_filename := r_filename r;
     h_color_scheme := r_color_scheme r;
     h_stats := if String.eqb (r_stats_json r) "" then ∅
                else match json_loads (r_stats_json r) with
                     | inr stats => stats
                     | inl _ => ∅
                     end;
     h_original_shape := ShapeTuple [r_original_height r; r_original_width r];
     h_enhanced_shape := ShapeTuple [r_enhanced_height r; r_enhanced_width r] |}.

Definition load_history_from_db (limit : option Z) (filters : option query_filters)
           (page page_size : Z) (db : database) : result (list HistoryEntry) :=
  _ <- _get_conn db ;;
  let selected := rev (sql_where (where_clause filters) (db_rows db)) in
  let rows :=
    if negb (page =? 0) && negb (page_size =? 0)
    then sql_limit_offset page_size ((page - 1) * page_size) selected
    else match limit with
         | Some n => if n =? 0 then selected else sql_limit_offset n 0 selected
         | None => selected
         end in
  ret (map row_entry rows).

Definition count_history_entries (filters : option query_filters) (db : database)
  : result Z :=
  _ <- _get_conn db ;;
  ret (Z.of_nat (length (sql_where (where_clause filters) (db_rows db)))).

Definition clear_history_db (db : database) : result unit * database :=
  match _get_conn db with
  | inl e => (inl e, db)
  | inr _ => (ret tt, {| db_connect_error := db_connect_error db;
                         db_rows := [];
                         db_last_id := db_last_id db |})
  end.

End History.

(** ** The pages of the query results *)

(** [show_history_query_results]: five records a page. *)
Definition page_size_ui : Z := 5.

Definition total_pages {A} (records : list A) : Z :=
  (Z.of_nat (length records) + page_size_ui - 1) / page_size_ui.

Definition paginated_records {A} (records : list A) (current_page : Z) : list A :=
  let start_idx := (current_page - 1) * page_size_ui in
  let end_idx := start_idx + page_size_ui in
  py_slice start_idx end_idx records.

(** ** The single-image pipeline of the application *)

Record uploaded_file : Type := {
  up_name : string;
  up_bytes : list Z
}.

(** The entries of [controls] the pipeline reads. *)
Record controls : Type := {
  c_apply_clahe : bool;
  c_contrast : Q;
  c_brightness : Z;
  c_color_scheme : string
}.

(** The dictionary [process_single_image] returns. *)
Record processing_result : Type := {
  res_filename : string;
  res_original_image : ndarray;
  res_enhanced_image : list (list color);
  res_stats : stats;
  res_timestamp : string
}.

Definition tuple_or_short (s : shape_value) : bool :=
  match s with
  | ShapeTuple _ => true
  | ShapeList dims => (length dims <? 2)%nat
  end.

Section App.

Variable COLOR_SCHEMES : gmap string (list band).
Variable CLAHE_apply : list (list Z) -> result (list (list Z)).

(** The image codecs: the image that a non-empty sequence of bytes encodes,
    if it encodes one. *)
Variable codecs : list Z -> option ndarray.

(** [cv2.imdecode(file_bytes, cv2.IMREAD_UNCHANGED)]: an empty buffer is
    refused with [cv2.error]; the result is [None] when the bytes are no
    image. *)
Definition cv2_imdecode (buf : list Z) : result (option ndarray) :=
  match buf with
  | [] => raise cv2_error
  | _ => ret (codecs buf)
  end.

Definition process_single_image (file : uploaded_file) (ctl : controls) (now : string)
  : result processing_result :=
  try_except
    (img <- cv2_imdecode (up_bytes file) ;;
     match img with
     | None => raise ValueError
     | Some img =>
         preprocessed_img <- preprocess_image CLAHE_apply img
                               (c_apply_clahe ctl) (c_contrast ctl) (c_brightness ctl) ;;
         enhanced_img <- enhance_pseudocolor COLOR_SCHEMES (Arr2 preprocessed_img)
                           (c_color_scheme ctl) ;;
         stats <- calculate_image_stats img ;;
         ret {| res_filename := up_name file;
                res_original_image := img;
                res_enhanced_image := enhanced_img;
                res_stats := stats;
                res_timestamp := now |}
     end)
    log_and_reraise.

End App.

(** ** Sample history data *)

Definition sample_entry : HistoryEntry :=
  {| h_timestamp := "2024-01-01 00:00:00";
     h_filename := "chest.png";
     h_color_scheme := "标准";
     h_stats := ∅;
     h_original_shape := ShapeTuple [480; 640];
     h_enhanced_shape := ShapeTuple [480; 640; 3] |}.

Definition empty_database : database :=
  {| db_connect_error := None; db_rows := []; db_last_id := 0 |}.

(** * Properties *)

(** ** Handlers, stores and shapes *)

Lemma try_except_reraise {A} (m : result A) : try_except m log_and_reraise = m.
Proof. destruct m; reflexivity. Qed.

Lemma is_u8_spec (v : Z) : is_u8 v = true <-> 0 <= v < 256.
Proof. unfold is_u8. rewrite andb_true_iff, Z.leb_le, Z.ltb_lt. tauto. Qed.

Lemma to_uint8_id (v : Z) : is_u8 v = true -> to_uint8 v = v.
Proof. rewrite is_u8_spec. intros H. unfold to_uint8. apply Z.mod_small. lia. Qed.

Lemma color_to_uint8_id (c : color) : is_u8_color c = true -> color_to_uint8 c = c.
Proof.
  destruct c as [[c0 c1] c2]. simpl.
  rewrite !andb_true_iff. intros [[H0 H1] H2].
  by rewrite !to_uint8_id.
Qed.

Lemma in_band_spec (lo hi v : Z) : in_band lo hi v = true <-> lo <= v < hi.
Proof. unfold in_band. rewrite andb_true_iff, Z.leb_le, Z.ltb_lt. tauto. Qed.

Lemma rectangular_Forall {A} (a : list (list A)) :
  rectangular a = true <-> Forall (fun r => length r = shape1 a) a.
Proof.
  unfold rectangular. rewrite forallb_forall, Forall_forall.
  split; intros H r Hr.
  - apply Nat.eqb_eq, H. by apply list_elem_of_In.
  - apply Nat.eqb_eq, H. by apply list_elem_of_In.
Qed.

Lemma length_concat_rows {A} (a : list (list A)) (w : nat) :
  Forall (fun r => length r = w) a -> length (concat a) = (length a * w)%nat.
Proof.
  induction 1 as [|r a Hr _ IH]; [reflexivity|].
  simpl. rewrite length_app, IH, Hr. reflexivity.
Qed.

Lemma zip_with_map_same {A B} (f : A -> B -> A) (g : B -> A) (l : list B) :
  zip_with f (map g l) l = map (fun v => f (g v) v) l.
Proof. induction l as [|y l IH]; simpl; [reflexivity|]. by rewrite IH. Qed.

Lemma zeros_as_map (gray : list (list Z)) :
  rectangular gray = true ->
  np_zeros3 (shape0 gray) (shape1 gray) = map (map (fun _ => black)) gray.
Proof.
  rewrite rectangular_Forall. unfold np_zeros3, shape0.
  generalize (shape1 gray) as w. intros w H.
  induction H as [|r a Hr _ IH]; simpl; [reflexivity|].
  rewrite IH. f_equal. rewrite <- Hr. clear.
  induction r as [|x r IH]; simpl; [reflexivity|]. by rewrite IH.
Qed.

(** ** The band loop of [enhance_pseudocolor] *)

Lemma assign_masked_loop (gray : list (list Z)) (layers : list band) :
  forall g : Z -> color,
    foldl (assign_masked gray) (map (map g) gray) layers
    = map (map (fun v => paint_from (g v) (map store_band layers) v)) gray.
Proof.
  induction layers as [|[[lo hi] c] layers IH]; intros g; simpl; [reflexivity|].
  rewrite <- (IH (fun v => if in_band lo hi v then color_to_uint8 c else g v)).
  f_equal. clear IH.
  induction gray as [|r gray IH]; simpl; [reflexivity|].
  rewrite IH. f_equal. apply zip_with_map_same.
Qed.

Lemma paint_from_snoc (init : color) (layers : list band) (lo hi : Z) (c : color) (v : Z) :
  paint_from init (layers ++ [(lo, hi, c)]) v
  = if in_band lo hi v then c else paint_from init layers v.
Proof. unfold paint_from. by rewrite foldl_app. Qed.

Lemma paint_last_band (layers : list band) (v : Z) :
  paint layers v = match last_band layers v with
                   | Some (_, _, c) => c
                   | None => black
                   end.
Proof.
  unfold paint, last_band.
  induction layers as [|[[lo hi] c] layers IH] using rev_ind; [reflexivity|].
  rewrite paint_from_snoc, rev_app_distr. simpl.
  destruct (in_band lo hi v); [reflexivity|exact IH].
Qed.

Lemma get_layers_found (COLOR_SCHEMES : gmap string (list band)) (name : string)
      (standard layers : list band) :
  COLOR_SCHEMES !! "标准" = Some standard ->
  COLOR_SCHEMES !! name = Some layers ->
  get_layers COLOR_SCHEMES name = inr layers.
Proof. intros Hd Hn. unfold get_layers. by rewrite Hd, Hn. Qed.

Lemma get_layers_fallback (COLOR_SCHEMES : gmap string (list band)) (name : string)
      (standard : list band) :
  COLOR_SCHEMES !! "标准" = Some standard ->
  COLOR_SCHEMES !! name = None ->
  get_layers COLOR_SCHEMES name = inr standard.
Proof. intros Hd Hn. unfold get_layers. by rewrite Hd, Hn. Qed.

Lemma enhance_pseudocolor_gray (COLOR_SCHEMES : gmap string (list band)) (name : string)
      (layers : list band) (gray : list (list Z)) :
  get_layers COLOR_SCHEMES name = inr layers ->
  rectangular gray = true ->
  enhance_pseudocolor COLOR_SCHEMES (Arr2 gray) name
  = inr (map (map (paint (map store_band layers))) gray).
Proof.
  intros Hl Hr. unfold enhance_pseudocolor.
  rewrite try_except_reraise. simpl. rewrite Hl. simpl. unfold ret. f_equal.
  rewrite zeros_as_map by done. apply assign_masked_loop.
Qed.

Lemma last_band_store (layers : list band) (v : Z) :
  last_band (map store_band layers) v = store_band <$> last_band layers v.
Proof.
  unfold last_band. rewrite <- map_rev.
  induction (rev layers) as [|[[lo hi] c] l IH]; simpl; [reflexivity|].
  destruct (in_band lo hi v); [reflexivity|exact IH].
Qed.

Lemma map_rows_ext {A} (f g : Z -> A) (gray : list (list Z)) :
  (forall v, f v = g v) -> map (map f) gray = map (map g) gray.
Proof.
  intros H. apply map_ext. intros r. apply map_ext. exact H.
Qed.

Lemma map_rows_ext_u8 {A} (f g : Z -> A) (gray : list (list Z)) :
  uint8_image gray = true ->
  (forall v, is_u8 v = true -> f v = g v) ->
  map (map f) gray = map (map g) gray.
Proof.
  unfold uint8_image. rewrite andb_true_iff. intros [_ Hu] H.
  rewrite forallb_forall in Hu.
  apply map_ext_in. intros r Hr. apply map_ext_in. intros v Hv.
  apply H. specialize (Hu r Hr). rewrite forallb_forall in Hu. by apply Hu.
Qed.

Lemma uint8_image_rectangular (gray : list (list Z)) :
  uint8_image gray = true -> rectangular gray = true.
Proof. unfold uint8_image. rewrite andb_true_iff. tauto. Qed.

(** C3. [enhance_pseudocolor] gives every pixel the colour of the last band
    of the scheme, in declaration order, whose range [lo <= v < hi] holds the
    pixel's intensity (black when no band does); with the scheme
    [[(0,256,RED); (100,150,BLUE)]] a pixel is BLUE when its intensity lies
    in [100,150) and RED otherwise. *)
Theorem enhance_pseudocolor_override_order
    (COLOR_SCHEMES : gmap string (list band)) (standard : list band)
    (gray : list (list Z)) :
  COLOR_SCHEMES !! "标准" = Some standard ->
  uint8_image gray = true ->
  (forall name layers,
      COLOR_SCHEMES !! name = Some layers ->
      enhance_pseudocolor COLOR_SCHEMES (Arr2 gray) name
      = inr (map (map (fun v => match last_band layers v with
                                | Some (_, _, c) => color_to_uint8 c
                                | None => black
                                end)) gray))
  /\ (forall name RED BLUE,
         COLOR_SCHEMES !! name = Some [(0, 256, RED); (100, 150, BLUE)] ->
         is_u8_color RED = true ->
         is_u8_color BLUE = true ->
         enhance_pseudocolor COLOR_SCHEMES (Arr2 gray) name
         = inr (map (map (fun v => if in_band 100 150 v then BLUE else RED)) gray)).
Proof.
  intros Hstd Hgray.
  pose proof (uint8_image_rectangular _ Hgray) as Hrect.
  split.
  - intros name layers Hname.
    rewrite (enhance_pseudocolor_gray _ _ layers) by eauto using get_layers_found.
    f_equal. apply map_rows_ext. intros v.
    rewrite paint_last_band, last_band_store.
    destruct (last_band layers v) as [[[lo hi] c]|]; reflexivity.
  - intros name RED BLUE Hname Hred Hblue.
    rewrite (enhance_pseudocolor_gray _ _ [(0, 256, RED); (100, 150, BLUE)])
      by eauto using get_layers_found.
    f_equal. apply map_rows_ext_u8; [done|]. intros v Hv.
    unfold paint, paint_from. simpl.
    rewrite !color_to_uint8_id by done.
    apply is_u8_spec in Hv.
    replace (in_band 0 256 v) with true
      by (symmetry; apply in_band_spec; lia).
    reflexivity.
Qed.

Lemma enhance_pseudocolor_override_order_witness :
  enhance_pseudocolor
    (<["override" := [(0, 256, RED); (100, 150, BLUE)]]>
       {[ "标准" := [(0, 100, BLUE); (100, 256, RED)] ]})
    (Arr2 [[0; 99; 100]; [149; 150; 255]]) "override"
  = inr [[RED; RED; BLUE]; [BLUE; RED; RED]].
Proof.
  refine (proj2 (enhance_pseudocolor_override_order
            (<["override" := [(0, 256, RED); (100, 150, BLUE)]]>
               {[ "标准" := [(0, 100, BLUE); (100, 256, RED)] ]})
            [(0, 100, BLUE); (100, 256, RED)]
            [[0; 99; 100]; [149; 150; 255]] _ _) "override" RED BLUE _ _ _);
    reflexivity.
Defined.

(** C4. An unknown scheme name is not an error: [enhance_pseudocolor] then
    uses the default scheme and returns what it returns for the default
    name, for every image; on a gray image the call succeeds. *)
Theorem enhance_pseudocolor_fallback
    (COLOR_SCHEMES : gmap string (list band)) (standard : list band) (name : string) :
  COLOR_SCHEMES !! "标准" = Some standard ->
  COLOR_SCHEMES !! name = None ->
  (forall image,
      enhance_pseudocolor COLOR_SCHEMES image name
      = enhance_pseudocolor COLOR_SCHEMES image "标准")
  /\ (forall gray, exists color_img,
         enhance_pseudocolor COLOR_SCHEMES (Arr2 gray) name = inr color_img
         /\ enhance_pseudocolor COLOR_SCHEMES (Arr2 gray) "标准" = inr color_img).
Proof.
  intros Hstd Hname.
  assert (Hget : get_layers COLOR_SCHEMES name = get_layers COLOR_SCHEMES "标准").
  { rewrite (get_layers_fallback _ _ standard) by done.
    by rewrite (get_layers_found _ _ standard standard). }
  split.
  - intros image. unfold enhance_pseudocolor. by rewrite Hget.
  - intros gray. unfold enhance_pseudocolor. rewrite Hget.
    rewrite (get_layers_found _ _ standard standard) by done.
    rewrite try_except_reraise. simpl. eauto.
Qed.

Lemma enhance_pseudocolor_fallback_witness :
  enhance_pseudocolor {[ "标准" := [(0, 100, BLUE); (100, 256, RED)] ]}
                      (Arr2 [[0; 100]; [150; 255]]) "nonexistent_scheme"
  = enhance_pseudocolor {[ "标准" := [(0, 100, BLUE); (100, 256, RED)] ]}
                        (Arr2 [[0; 100]; [150; 255]]) "标准".
Proof.
  refine (proj1 (enhance_pseudocolor_fallback
            {[ "标准" := [(0, 100, BLUE); (100, 256, RED)] ]}
            [(0, 100, BLUE); (100, 256, RED)] "nonexistent_scheme" _ _) _);
    reflexivity.
Defined.

(** C10. [generate_legend] resolves the name like [enhance_pseudocolor]: an
    unknown name does not raise and yields the legend of the default
    scheme. *)
Theorem generate_legend_fallback
    (COLOR_SCHEMES : gmap string (list band)) (standard : list band) (name : string) :
  COLOR_SCHEMES !! "标准" = Some standard ->
  COLOR_SCHEMES !! name = None ->
  exists legend,
    generate_legend COLOR_SCHEMES name = inr legend
    /\ generate_legend COLOR_SCHEMES "标准" = inr legend
    /\ get_layers COLOR_SCHEMES name = inr standard.
Proof.
  intros Hstd Hname. unfold generate_legend.
  rewrite (get_layers_fallback _ _ standard) by done.
  rewrite (get_layers_found _ _ standard standard) by done.
  rewrite try_except_reraise. simpl. eauto.
Qed.

Lemma generate_legend_fallback_witness :
  exists legend,
    generate_legend {[ "标准" := [(0, 100, BLUE); (100, 256, RED)] ]} "nonexistent_scheme"
    = inr legend
    /\ generate_legend {[ "标准" := [(0, 100, BLUE); (100, 256, RED)] ]} "标准" = inr legend
    /\ get_layers {[ "标准" := [(0, 100, BLUE); (100, 256, RED)] ]} "nonexistent_scheme"
       = inr [(0, 100, BLUE); (100, 256, RED)].
Proof.
  apply (generate_legend_fallback
           {[ "标准" := [(0, 100, BLUE); (100, 256, RED)] ]}
           [(0, 100, BLUE); (100, 256, RED)] "nonexistent_scheme");
    reflexivity.
Defined.

(** ** The histogram *)

Lemma count_eq_cons (i v : Z) (x : list Z) :
  count_eq i (v :: x) = (if decide (v = i) then 1 else 0) + count_eq i x.
Proof.
  unfold count_eq. rewrite filter_cons.
  destruct (decide (v = i)); simpl length; lia.
Qed.

Lemma bincount_loop_length (x : list Z) :
  forall acc : list Z,
    length (foldl (fun counts v => alter Z.succ (Z.to_nat v) counts) acc x) = length acc.
Proof.
  induction x as [|v x IH]; intros acc; simpl; [reflexivity|].
  by rewrite IH, length_alter.
Qed.

Lemma bincount_loop_lookup (x : list Z) (i : nat) :
  Forall (fun v => 0 <= v) x ->
  forall acc : list Z,
    foldl (fun counts v => alter Z.succ (Z.to_nat v) counts) acc x !! i
    = (fun c => c + count_eq (Z.of_nat i) x) <$> acc !! i.
Proof.
  induction 1 as [|v x Hv _ IH]; intros acc; simpl.
  - unfold count_eq. simpl. destruct (acc !! i) as [c|]; cbn; [apply f_equal; lia|reflexivity].
  - rewrite IH, count_eq_cons.
    destruct (decide (v = Z.of_nat i)) as [->|Hne].
    + rewrite Nat2Z.id, list_lookup_alter_eq.
      destruct (acc !! i) as [c|]; cbn; [apply f_equal; lia|reflexivity].
    + rewrite list_lookup_alter_ne by lia.
      destruct (acc !! i) as [c|]; cbn; [apply f_equal; lia|reflexivity].
Qed.

Lemma Zsum_alter_succ (l : list Z) :
  forall k : nat, (k < length l)%nat -> Zsum (alter Z.succ k l) = Zsum l + 1.
Proof.
  induction l as [|a l IH]; intros k Hk; simpl in *; [lia|].
  destruct k as [|k]; simpl.
  - lia.
  - change (list_alter Z.succ k l) with (alter Z.succ k l). rewrite IH by lia. lia.
Qed.

Lemma bincount_loop_sum (x : list Z) :
  forall acc : list Z,
    Forall (fun v => 0 <= v < Z.of_nat (length acc)) x ->
    Zsum (foldl (fun counts v => alter Z.succ (Z.to_nat v) counts) acc x)
    = Zsum acc + Z.of_nat (length x).
Proof.
  induction x as [|v x IH]; intros acc Hx; simpl foldl.
  - simpl. lia.
  - inversion Hx as [|? ? Hv Hx']; subst.
    rewrite IH.
    + rewrite Zsum_alter_succ by lia. simpl length. lia.
    + by rewrite length_alter.
Qed.

Lemma Zsum_replicate_0 (n : nat) : Zsum (replicate n 0) = 0.
Proof. induction n as [|n IH]; simpl; [reflexivity|]. fold (Zsum (replicate n 0)). lia. Qed.

Lemma foldr_max_bound (x : list Z) (b : Z) :
  -1 < b -> Forall (fun v => v < b) x -> foldr Z.max (-1) x < b.
Proof.
  intros Hb. induction 1 as [|v x Hv _ IH]; simpl; lia.
Qed.

Lemma uint8_image_flatten (gray : list (list Z)) :
  uint8_image gray = true -> Forall (fun v => 0 <= v < 256) (flatten gray).
Proof.
  unfold uint8_image, flatten. rewrite andb_true_iff. intros [_ H].
  rewrite forallb_forall in H.
  apply Forall_concat, Forall_forall. intros r Hr.
  apply list_elem_of_In, H in Hr. rewrite forallb_forall in Hr.
  apply Forall_forall. intros v Hv. by apply is_u8_spec, Hr, list_elem_of_In.
Qed.

Lemma np_bincount_uint8 (x : list Z) :
  Forall (fun v => 0 <= v < 256) x ->
  np_bincount x 256
  = inr (foldl (fun counts v => alter Z.succ (Z.to_nat v) counts) (replicate 256 0) x).
Proof.
  intros Hx. unfold np_bincount.
  replace (existsb (fun v => v <? 0) x) with false.
  - assert (foldr Z.max (-1) x < 256) as Hmax.
    { apply foldr_max_bound; [lia|]. eapply Forall_impl; [exact Hx|]. simpl. lia. }
    replace (Nat.max 256 (Z.to_nat (foldr Z.max (-1) x + 1))) with 256%nat by lia.
    reflexivity.
  - symmetry. apply not_true_is_false. rewrite existsb_exists.
    intros (v & Hv & Hneg). apply Z.ltb_lt in Hneg.
    rewrite Forall_forall in Hx. apply list_elem_of_In, Hx in Hv. lia.
Qed.

(** C6. [compute_histogram] returns 256 counts, bin [i] being the number of
    pixels of intensity [i], and the counts add up to width times height. *)
Theorem compute_histogram_bins (image : ndarray) (gray : list (list Z)) :
  _to_gray image = inr gray ->
  uint8_image gray = true ->
  exists counts,
    compute_histogram image = inr counts
    /\ length counts = 256%nat
    /\ (forall i : nat, (i < 256)%nat ->
          counts !! i = Some (count_eq (Z.of_nat i) (flatten gray)))
    /\ Zsum counts = Z.of_nat (shape1 gray) * Z.of_nat (shape0 gray).
Proof.
  intros Hgray Hu8.
  pose proof (uint8_image_flatten _ Hu8) as Hflat.
  unfold compute_histogram. rewrite try_except_reraise, Hgray.
  unfold bind at 1. rewrite np_bincount_uint8 by done. unfold bind, ret.
  eexists. split; [reflexivity|]. split; [|split].
  - by rewrite bincount_loop_length, length_replicate.
  - intros i Hi. rewrite bincount_loop_lookup.
    + rewrite lookup_replicate_2 by done. simpl. reflexivity.
    + eapply Forall_impl; [exact Hflat|]. simpl. lia.
  - rewrite bincount_loop_sum.
    + rewrite Zsum_replicate_0. unfold flatten.
      rewrite (length_concat_rows gray (shape1 gray)).
      * unfold shape0. lia.
      * by apply rectangular_Forall, uint8_image_rectangular.
    + by rewrite length_replicate.
Qed.

Lemma compute_histogram_bins_witness :
  (exists counts,
      compute_histogram (Arr2 scenario_gray) = inr counts
      /\ length counts = 256%nat
      /\ (forall i : nat, (i < 256)%nat ->
            counts !! i = Some (count_eq (Z.of_nat i) (flatten scenario_gray)))
      /\ Zsum counts = Z.of_nat (shape1 scenario_gray) * Z.of_nat (shape0 scenario_gray))
  /\ (exists counts,
         compute_histogram (Arr3 sample_bgr) = inr counts
         /\ length counts = 256%nat
         /\ (forall i : nat, (i < 256)%nat ->
               counts !! i = Some (count_eq (Z.of_nat i) (flatten [[29; 255; 0]])))
         /\ Zsum counts = Z.of_nat (shape1 [[29; 255; 0]]) * Z.of_nat (shape0 [[29; 255; 0]])).
Proof.
  split.
  - apply (compute_histogram_bins (Arr2 scenario_gray) scenario_gray); reflexivity.
  - apply (compute_histogram_bins (Arr3 sample_bgr) [[29; 255; 0]]); reflexivity.
Defined.

(** ** The legend *)

Lemma assign_columns_loop_cell (layers : list band) (r j : nat) :
  forall legend : list (list color),
    cell (foldl assign_columns legend layers) r j
    = (fun old => paint_from old (map slice_band layers) (Z.of_nat j)) <$> cell legend r j.
Proof.
  induction layers as [|[[lo hi] c] layers IH]; intros legend; simpl.
  - destruct (cell legend r j); reflexivity.
  - rewrite IH. unfold cell.
    change (map ?f legend) with (f <$> legend).
    rewrite list_lookup_fmap.
    destruct (legend !! r) as [row|]; simpl; [|reflexivity].
    rewrite list_lookup_imap.
    destruct (row !! j); reflexivity.
Qed.



Lemma np_zeros3_cell (h w r j : nat) :
  (r < h)%nat -> (j < w)%nat -> cell (np_zeros3 h w) r j = Some black.
Proof.
  intros Hr Hj. unfold cell, np_zeros3.
  rewrite lookup_replicate_2 by done. by rewrite lookup_replicate_2.
Qed.

Lemma paint_from_slice_band (layers : list band) (j : Z) :
  forallb intensity_band layers = true ->
  0 <= j < 256 ->
  forall init, paint_from init (map slice_band layers) j = paint_from init layers j.
Proof.
  intros Hok Hj. unfold paint_from.
  induction layers as [|[[lo hi] c] layers IH]; intros init; simpl; [reflexivity|].
  simpl in Hok. apply andb_true_iff in Hok as [Hb Hok].
  apply andb_true_iff in Hb as [Hb Hc]. apply andb_true_iff in Hb as [Hlo Hhi].
  apply Z.leb_le in Hlo, Hhi.
  rewrite color_to_uint8_id by done.
  replace (in_band (slice_bound lo 256) (slice_bound hi 256) j) with (in_band lo hi j).
  - by apply IH.
  - unfold in_band, slice_bound.
    destruct (Z.ltb_spec lo 0), (Z.ltb_spec hi 0); lia.
Qed.





(** ** Statistics *)

Lemma foldr_min_le (x : Z) (l : list Z) :
  Forall (fun y => foldr Z.min x l <= y) (x :: l).
Proof.
  induction l as [|z l IH]; simpl.
  - repeat constructor. lia.
  - inversion IH as [|? ? Hx Hl]; subst. constructor; [lia|]. constructor; [lia|].
    eapply Forall_impl; [exact Hl|]. simpl. lia.
Qed.

Lemma foldr_max_ge (x : Z) (l : list Z) :
  Forall (fun y => y <= foldr Z.max x l) (x :: l).
Proof.
  induction l as [|z l IH]; simpl.
  - repeat constructor. lia.
  - inversion IH as [|? ? Hx Hl]; subst. constructor; [lia|]. constructor; [lia|].
    eapply Forall_impl; [exact Hl|]. simpl. lia.
Qed.

Lemma Zsum_bounds (lo hi : Z) (l : list Z) :
  Forall (fun y => lo <= y <= hi) l ->
  lo * Z.of_nat (length l) <= Zsum l <= hi * Z.of_nat (length l).
Proof.
  induction 1 as [|y l Hy _ IH]; simpl; [lia|].
  fold (Zsum l). lia.
Qed.

Lemma np_mean_bounds (lo hi : Z) (l : list Z) :
  l <> [] ->
  Forall (fun y => lo <= y <= hi) l ->
  (inject_Z lo <= np_mean l <= inject_Z hi)%Q.
Proof.
  intros Hne Hl. pose proof (Zsum_bounds lo hi l Hl) as [Hlo Hhi].
  assert (0 < inject_Z (Z.of_nat (length l)))%Q as Hn.
  { change 0%Q with (inject_Z 0). rewrite <- Zlt_Qlt. destruct l; [done|simpl; lia]. }
  unfold np_mean. split.
  - apply Qle_shift_div_l; [exact Hn|].
    rewrite <- inject_Z_mult, <- Zle_Qle. exact Hlo.
  - apply Qle_shift_div_r; [exact Hn|].
    rewrite <- inject_Z_mult, <- Zle_Qle. exact Hhi.
Qed.

Lemma drop_nth (l : list Z) (k : nat) :
  (k < length l)%nat -> drop k l = nth k l 0 :: drop (S k) l.
Proof.
  intros Hk. destruct (lookup_lt_is_Some_2 l k Hk) as [x Hx].
  rewrite (drop_S _ _ _ Hx). f_equal. by rewrite nth_lookup, Hx.
Qed.

Lemma nth_Forall (P : Z -> Prop) (l : list Z) (k : nat) :
  Forall P l -> (k < length l)%nat -> P (nth k l 0).
Proof.
  intros Hl Hk. destruct (lookup_lt_is_Some_2 l k Hk) as [x Hx].
  rewrite nth_lookup, Hx. simpl. eapply Forall_lookup_1; eauto.
Qed.

(** The median is the mean of the two central order statistics (which
    coincide when the size is odd). *)
Lemma np_median_middle (a : list Z) :
  a <> [] ->
  (np_median a ==
   (inject_Z (nth ((length a - 1) / 2)%nat (merge_sort Z.le a) 0%Z)
    + inject_Z (nth (length a / 2)%nat (merge_sort Z.le a) 0%Z)) / 2)%Q.
Proof.
  intros Hne. unfold np_median.
  assert (length (merge_sort Z.le a) = length a) as Hlen
      by apply Permutation_length, merge_sort_Permutation.
  assert (0 < length a)%nat as Hpos by (destruct a; [done|simpl; lia]).
  set (s := merge_sort Z.le a) in *. set (n := length a) in *.
  clearbody s n. clear Hne.
  destruct (Nat.odd n) eqn:Hodd.
  - apply Nat.odd_spec in Hodd as [m Hm].
    assert ((n - 1) / 2 = m)%nat as ->
        by (symmetry; apply (Nat.div_unique _ 2 m 0); lia).
    assert (n / 2 = m)%nat as ->
        by (symmetry; apply (Nat.div_unique _ 2 m 1); lia).
    rewrite (drop_nth s m) by lia. simpl take.
    generalize (nth m s 0). intros x.
    unfold np_mean, Qeq. simpl. lia.
  - assert (Nat.even n = true) as Heven
        by (rewrite <- Nat.negb_odd, Hodd; reflexivity).
    apply Nat.even_spec in Heven as [m Hm].
    assert ((n - 1) / 2 = m - 1)%nat as ->
        by (symmetry; apply (Nat.div_unique _ 2 (m - 1) 1); lia).
    assert (n / 2 = m)%nat as ->
        by (symmetry; apply (Nat.div_unique _ 2 m 0); lia).
    rewrite (drop_nth s (m - 1)) by lia.
    replace (S (m - 1)) with m by lia.
    rewrite (drop_nth s m) by lia. simpl take.
    generalize (nth (m - 1) s 0) (nth m s 0). intros x y.
    unfold np_mean, Qeq. simpl. lia.
Qed.

Lemma count_if_app (p : Z -> bool) (a b : list Z) :
  count_if p (a ++ b) = (count_if p a + count_if p b)%nat.
Proof. unfold count_if. by rewrite List.filter_app, length_app. Qed.

Lemma count_if_all (p : Z -> bool) (a : list Z) :
  Forall (fun x => p x = true) a -> count_if p a = length a.
Proof.
  unfold count_if. induction 1 as [|x a Hx _ IH]; simpl; [reflexivity|].
  rewrite Hx. simpl. by rewrite IH.
Qed.

Lemma count_if_Permutation (p : Z -> bool) (a b : list Z) :
  a ≡ₚ b -> count_if p a = count_if p b.
Proof.
  unfold count_if. induction 1 as [|x a b _ IH|x y a|a b c _ IH1 _ IH2]; simpl.
  - reflexivity.
  - destruct (p x); simpl; by rewrite IH.
  - destruct (p x), (p y); reflexivity.
  - by rewrite IH1.
Qed.

Lemma StronglySorted_take_le (s : list Z) :
  StronglySorted Z.le s ->
  forall k, (k < length s)%nat -> Forall (fun x => x <= nth k s 0) (take (S k) s).
Proof.
  induction 1 as [|x s Hs IH Hx]; intros k Hk; simpl in Hk; [lia|].
  destruct k as [|k]; simpl.
  - repeat constructor. lia.
  - constructor.
    + apply (nth_Forall _ s k Hx). lia.
    + apply IH. lia.
Qed.

Lemma StronglySorted_drop_ge (s : list Z) :
  StronglySorted Z.le s ->
  forall k, (k < length s)%nat -> Forall (fun x => nth k s 0 <= x) (drop k s).
Proof.
  induction 1 as [|x s Hs IH Hx]; intros k Hk; simpl in Hk; [lia|].
  destruct k as [|k]; simpl.
  - constructor; [lia|exact Hx].
  - apply IH. lia.
Qed.

Lemma StronglySorted_nth_le (s : list Z) (i k : nat) :
  StronglySorted Z.le s -> (i <= k)%nat -> (k < length s)%nat -> nth i s 0 <= nth k s 0.
Proof.
  intros Hs Hik Hk.
  pose proof (StronglySorted_take_le s Hs k Hk) as Hall.
  assert (nth i (take (S k) s) 0 = nth i s 0) as <-.
  { rewrite !nth_lookup, lookup_take_lt by lia. reflexivity. }
  apply (nth_Forall (fun x => x <= nth k s 0)); [exact Hall|].
  rewrite length_take. lia.
Qed.

Lemma Qmid_between (L H : Q) :
  (L <= H)%Q -> (L <= (L + H) / 2 <= H)%Q.
Proof.
  intros HLH. split.
  - apply Qle_shift_div_l; [reflexivity|]. lra.
  - apply Qle_shift_div_r; [reflexivity|]. lra.
Qed.

(** At least half of the entries are at most the median, and at least half
    are at least the median. *)
Lemma np_median_halves (a : list Z) :
  a <> [] ->
  (length a <= 2 * count_if (fun x => Qle_bool (inject_Z x) (np_median a)) a)%nat
  /\ (length a <= 2 * count_if (fun x => Qle_bool (np_median a) (inject_Z x)) a)%nat.
Proof.
  intros Hne. pose proof (np_median_middle a Hne) as Hmid.
  pose proof (merge_sort_Permutation Z.le a) as Hperm.
  assert (StronglySorted Z.le (merge_sort Z.le a)) as Hsorted.
  { apply Sorted_StronglySorted; [apply _|]. apply Sorted_merge_sort. apply _. }
  assert (length (merge_sort Z.le a) = length a) as Hlen
      by by apply Permutation_length.
  assert (0 < length a)%nat as Hpos by (destruct a; [done|simpl; lia]).
  rewrite <- !(count_if_Permutation _ _ _ Hperm).
  set (med := np_median a) in *.
  set (s := merge_sort Z.le a) in *. set (n := length a) in *.
  clearbody s n med. clear Hne Hperm.
  assert ((n - 1) / 2 <= n / 2)%nat as Hidx by (apply Nat.Div0.div_le_mono; lia).
  assert (n / 2 < n)%nat as Hhalf by (apply Nat.div_lt; lia).
  assert (n <= 2 * S ((n - 1) / 2))%nat as Hlow.
  { pose proof (Nat.div_mod_eq (n - 1) 2) as Hdm.
    pose proof (Nat.mod_upper_bound (n - 1) 2). lia. }
  assert (n <= 2 * (n - n / 2))%nat as Hhigh.
  { pose proof (Nat.div_mod_eq n 2) as Hdm. lia. }
  pose proof (StronglySorted_nth_le s _ _ Hsorted Hidx ltac:(lia)) as Hle.
  rewrite Zle_Qle in Hle.
  apply Qmid_between in Hle as [HL HH]. rewrite <- Hmid in HL, HH.
  split.
  - rewrite <- (take_drop (S ((n - 1) / 2)) s), count_if_app.
    rewrite count_if_all.
    + rewrite length_take. lia.
    + eapply Forall_impl;
        [apply (StronglySorted_take_le s Hsorted ((n - 1) / 2)%nat); lia|].
      intros x Hx. cbv beta in Hx |- *. apply Qle_bool_iff. rewrite Zle_Qle in Hx.
      exact (Qle_trans _ _ _ Hx HL).
  - rewrite <- (take_drop (n / 2) s), count_if_app.
    rewrite (count_if_all _ (drop (n / 2) s)).
    + rewrite length_drop. lia.
    + eapply Forall_impl;
        [apply (StronglySorted_drop_ge s Hsorted (n / 2)%nat); lia|].
      intros x Hx. cbv beta in Hx |- *. apply Qle_bool_iff. rewrite Zle_Qle in Hx.
      exact (Qle_trans _ _ _ HH Hx).
Qed.

(** C7. On a non-empty image the statistics satisfy [min <= mean <= max]
    and [min <= median <= max]; the median is the mean of the two central
    elements of the sorted permutation of all the pixels (one element when
    their number is odd), so at least half of the pixels lie on either side
    of it. *)
Theorem calculate_image_stats_bounds (image : ndarray) (gray : list (list Z)) :
  _to_gray image = inr gray ->
  flatten gray <> [] ->
  exists st sorted,
    calculate_image_stats image = inr st
    /\ (s_min st <= s_mean st <= s_max st)%Q
    /\ (s_min st <= s_median st <= s_max st)%Q
    /\ sorted ≡ₚ flatten gray
    /\ Sorted Z.le sorted
    /\ (s_median st ==
        (inject_Z (nth ((length sorted - 1) / 2)%nat sorted 0%Z)
         + inject_Z (nth (length sorted / 2)%nat sorted 0%Z)) / 2)%Q
    /\ (length (flatten gray)
        <= 2 * count_if (fun x => Qle_bool (inject_Z x) (s_median st)) (flatten gray))%nat
    /\ (length (flatten gray)
        <= 2 * count_if (fun x => Qle_bool (s_median st) (inject_Z x)) (flatten gray))%nat.
Proof.
  intros Hgray Hne.
  pose proof (np_median_middle _ Hne) as Hmid.
  pose proof (np_median_halves _ Hne) as [Hlow Hhigh].
  pose proof (merge_sort_Permutation Z.le (flatten gray)) as Hperm.
  assert (Sorted Z.le (merge_sort Z.le (flatten gray))) as Hsorted
      by (apply Sorted_merge_sort; apply _).
  assert (exists mn mx,
             np_min (flatten gray) = inr mn /\ np_max (flatten gray) = inr mx
             /\ Forall (fun y => mn <= y <= mx) (flatten gray)) as (mn & mx & Hmn & Hmx & Hall).
  { destruct (flatten gray) as [|x l]; [done|].
    exists (foldr Z.min x l), (foldr Z.max x l). split; [done|]. split; [done|].
    pose proof (foldr_min_le x l) as H1. pose proof (foldr_max_ge x l) as H2.
    rewrite Forall_forall in H1, H2. apply Forall_forall. intros y Hy.
    split; [by apply H1|by apply H2]. }
  exists {| s_min := inject_Z mn;
            s_max := inject_Z mx;
            s_mean := np_mean (flatten gray);
            s_std_sq := np_var (flatten gray);
            s_width := inject_Z (Z.of_nat (shape1 gray));
            s_height := inject_Z (Z.of_nat (shape0 gray));
            s_median := np_median (flatten gray) |}.
  exists (merge_sort Z.le (flatten gray)).
  cbn [s_min s_max s_mean s_median].
  assert (length (merge_sort Z.le (flatten gray)) = length (flatten gray)) as Hlen
      by by apply Permutation_length.
  rewrite Hlen.
  split; [|split; [|split; [|split; [|split; [|split; [|split]]]]]]; try done.
  - unfold calculate_image_stats.
    rewrite try_except_reraise, Hgray. cbn [bind]. by rewrite Hmn, Hmx.
  - by apply np_mean_bounds.
  - assert (0 < length (flatten gray))%nat as Hpos
        by (destruct (flatten gray); [done|simpl; lia]).
    assert (StronglySorted Z.le (merge_sort Z.le (flatten gray))) as Hss
        by (apply Sorted_StronglySorted; [apply _|done]).
    assert (Forall (fun y => mn <= y <= mx) (merge_sort Z.le (flatten gray))) as Hall'
        by by rewrite Hperm.
    set (s := merge_sort Z.le (flatten gray)) in *.
    set (n := length (flatten gray)) in *.
    assert (n / 2 < n)%nat as Hhalf by (apply Nat.div_lt; lia).
    assert ((n - 1) / 2 <= n / 2)%nat as Hidx by (apply Nat.Div0.div_le_mono; lia).
    pose proof (StronglySorted_nth_le s _ _ Hss Hidx ltac:(lia)) as Hle.
    pose proof (nth_Forall _ s ((n - 1) / 2) Hall' ltac:(lia)) as [HL _].
    pose proof (nth_Forall _ s (n / 2) Hall' ltac:(lia)) as [_ HH].
    rewrite Zle_Qle in Hle, HL, HH.
    apply Qmid_between in Hle as [H1 H2].
    rewrite Hmid. split; eapply Qle_trans; eauto.
Qed.

Lemma calculate_image_stats_bounds_witness :
  exists st sorted,
    calculate_image_stats (Arr2 scenario_gray) = inr st
    /\ (s_min st <= s_mean st <= s_max st)%Q
    /\ (s_min st <= s_median st <= s_max st)%Q
    /\ sorted ≡ₚ flatten scenario_gray
    /\ Sorted Z.le sorted
    /\ (s_median st ==
        (inject_Z (nth ((length sorted - 1) / 2)%nat sorted 0%Z)
         + inject_Z (nth (length sorted / 2)%nat sorted 0%Z)) / 2)%Q
    /\ (length (flatten scenario_gray)
        <= 2 * count_if (fun x => Qle_bool (inject_Z x) (s_median st))
                        (flatten scenario_gray))%nat
    /\ (length (flatten scenario_gray)
        <= 2 * count_if (fun x => Qle_bool (s_median st) (inject_Z x))
                        (flatten scenario_gray))%nat.
Proof.
  apply (calculate_image_stats_bounds (Arr2 scenario_gray) scenario_gray).
  - reflexivity.
  - discriminate.
Defined.

(** ** The contrast and brightness remap *)

Lemma fits_double_Some (n : Z) :
  fits_double n = true -> exists b, binary64 (inject_Z n) = Some b.
Proof.
  unfold fits_double. destruct (binary64 (inject_Z n)) as [b|]; [eauto|discriminate].
Qed.

Lemma preprocess_image_remap
      (CLAHE_apply : list (list Z) -> result (list (list Z)))
      (gray : list (list Z)) (contrast : Q) (brightness : Z) (b : Q) :
  binary64 (inject_Z brightness) = Some b ->
  flatten gray <> [] ->
  rectangular gray = true ->
  preprocess_image CLAHE_apply (Arr2 gray) false contrast brightness
  = inr (map (map (scale_abs contrast b)) gray).
Proof.
  intros Hb Hne Hrect. unfold preprocess_image.
  rewrite try_except_reraise. cbn [_to_gray bind ret]. unfold cv2_convertScaleAbs.
  rewrite Hb.
  replace (shape0 gray * shape1 gray =? 0)%nat with false; [reflexivity|].
  symmetry. apply Nat.eqb_neq. intros Hz. apply Hne. unfold flatten.
  apply length_zero_iff_nil.
  rewrite (length_concat_rows gray (shape1 gray)) by by apply rectangular_Forall.
  exact Hz.
Qed.

Lemma saturate_cast_uchar_range (v : Z) : is_u8 (saturate_cast_uchar v) = true.
Proof.
  apply is_u8_spec. unfold saturate_cast_uchar.
  destruct (Z.ltb_spec v 0), (Z.ltb_spec 255 v); lia.
Qed.

Lemma scale_abs_range (alpha beta : Q) (v : Z) : is_u8 (scale_abs alpha beta v) = true.
Proof.
  unfold scale_abs.
  destruct (binary32 alpha), (binary32 beta), (binary32 (inject_Z v)); try reflexivity.
  destruct (binary32 _); [apply saturate_cast_uchar_range|reflexivity].
Qed.

(** The remap is computed in single precision, with one rounding after the
    multiply-add: with gain 0.9 and offset -50 the pixels 55 and 75 give 1
    and 17, where exact arithmetic (the ties 0.5 and 17.5, rounded to even)
    gives 0 and 18. *)
Lemma preprocess_image_single_precision
    (CLAHE_apply : list (list Z) -> result (list (list Z))) :
  preprocess_image CLAHE_apply (Arr2 [[55; 75]]) false 0.9 (-50) = inr [[1; 17]]
  /\ map (map (fun v => saturate_cast_uchar
                          (cvRound (Qabs (inject_Z v * 0.9 + inject_Z (-50))))))
         [[55; 75]]
     = [[0; 18]].
Proof. split; vm_compute; reflexivity. Qed.

(** C2. With gain 1 and offset -50 the pixels 0, 10 and 60 come out of
    [preprocess_image] as 50, 40 and 10: the magnitude of the negative
    affine value is kept, where the clamp of the specification gives 0, 0 and
    10.  Saturation at the top holds: 250 with gain 2 and offset 50 gives
    255. *)
Theorem preprocess_image_negative_offset
    (CLAHE_apply : list (list Z) -> result (list (list Z))) :
  preprocess_image CLAHE_apply (Arr2 [[0; 10; 60]]) false 1 (-50)
  = inr [[50; 40; 10]]
  /\ map (map (spec_remap 1 (-50))) [[0; 10; 60]] = [[0; 0; 10]]
  /\ preprocess_image CLAHE_apply (Arr2 [[250]]) false 2 50
     = inr [[255]]
  /\ map (map (spec_remap 2 50)) [[250]] = [[255]].
Proof. repeat split; vm_compute; reflexivity. Qed.

(** ** The end-to-end scenario *)

(** C1 (amended). The scenario image goes through [preprocess_image]
    (no equalization, gain 1, offset 0) and [enhance_pseudocolor] to the
    expected colour image; its statistics are minimum 0, maximum 255, mean
    126.25 and variance 8442.1875, that is a standard deviation between
    91.85 and 91.95. *)
Theorem end_to_end_scenario
    (COLOR_SCHEMES : gmap string (list band))
    (CLAHE_apply : list (list Z) -> result (list (list Z)))
    (standard : list band) (name : string) :
  COLOR_SCHEMES !! "标准" = Some standard ->
  COLOR_SCHEMES !! name = Some scenario_scheme ->
  (gray <- preprocess_image CLAHE_apply (Arr2 scenario_gray) false 1 0 ;;
   enhance_pseudocolor COLOR_SCHEMES (Arr2 gray) name)
  = inr scenario_output
  /\ exists st,
      calculate_image_stats (Arr2 scenario_gray) = inr st
      /\ (s_min st == 0)%Q
      /\ (s_max st == 255)%Q
      /\ (s_mean st == 126.25)%Q
      /\ (s_std_sq st == 8442.1875)%Q
      /\ std_between st 91.85 91.95.
Proof.
  intros Hstd Hname. split.
  - rewrite (preprocess_image_remap _ _ _ _ 0%Q) by done. cbn [bind].
    replace (map (map (scale_abs 1 0)) scenario_gray) with scenario_gray
      by (vm_compute; reflexivity).
    rewrite (enhance_pseudocolor_gray _ _ scenario_scheme)
      by (eauto using get_layers_found; done).
    reflexivity.
  - eexists. split; [reflexivity|]. cbn [s_min s_max s_mean s_std_sq].
    unfold std_between. cbn [s_std_sq].
    repeat split; vm_compute; congruence.
Qed.

Lemma end_to_end_scenario_witness :
  (gray <- preprocess_image (fun gray => ret gray) (Arr2 scenario_gray) false 1 0 ;;
   enhance_pseudocolor {[ "标准" := scenario_scheme ]} (Arr2 gray) "标准")
  = inr scenario_output
  /\ exists st,
      calculate_image_stats (Arr2 scenario_gray) = inr st
      /\ (s_min st == 0)%Q
      /\ (s_max st == 255)%Q
      /\ (s_mean st == 126.25)%Q
      /\ (s_std_sq st == 8442.1875)%Q
      /\ std_between st 91.85 91.95.
Proof.
  apply (end_to_end_scenario {[ "标准" := scenario_scheme ]} (fun gray => ret gray)
           scenario_scheme "标准");
    reflexivity.
Defined.

(** The statistics of the scenario image do not have a standard deviation
    near 94.8: it is not even between 93.8 and 95.8. *)
Lemma end_to_end_scenario_std_not_94_8 :
  ~ (forall (COLOR_SCHEMES : gmap string (list band))
            (CLAHE_apply : list (list Z) -> result (list (list Z)))
            (standard : list band) (name : string),
        COLOR_SCHEMES !! "标准" = Some standard ->
        COLOR_SCHEMES !! name = Some scenario_scheme ->
        (gray <- preprocess_image CLAHE_apply (Arr2 scenario_gray) false 1 0 ;;
         enhance_pseudocolor COLOR_SCHEMES (Arr2 gray) name)
        = inr scenario_output
        /\ exists st,
            calculate_image_stats (Arr2 scenario_gray) = inr st
            /\ (s_min st == 0)%Q
            /\ (s_max st == 255)%Q
            /\ (s_mean st == 126.25)%Q
            /\ std_between st 93.8 95.8).
Proof.
  intros H.
  assert (({[ "标准" := scenario_scheme ]} : gmap string (list band)) !! "标准"
          = Some scenario_scheme) as Hstd by reflexivity.
  destruct (H {[ "标准" := scenario_scheme ]} (fun gray => ret gray)
              scenario_scheme "标准" Hstd Hstd)
    as (_ & st & Hst & _ & _ & _ & _ & Hlo & _).
  injection Hst as <-. revert Hlo. vm_compute. congruence.
Qed.

(** ** Colouring a coloured image again *)

Lemma shape0_map {A B} (f : A -> B) (a : list (list A)) :
  shape0 (map (map f) a) = shape0 a.
Proof. unfold shape0. apply length_map. Qed.

Lemma shape1_map {A B} (f : A -> B) (a : list (list A)) :
  shape1 (map (map f) a) = shape1 a.
Proof. destruct a as [|r a]; simpl; [reflexivity|apply length_map]. Qed.

Lemma rectangular_map {A B} (f : A -> B) (a : list (list A)) :
  rectangular a = true -> rectangular (map (map f) a) = true.
Proof.
  rewrite !rectangular_Forall, shape1_map. intros H.
  apply Forall_forall. intros r Hr.
  apply list_elem_of_In, in_map_iff in Hr as (r0 & <- & Hr0).
  rewrite length_map. rewrite Forall_forall in H. by apply H, list_elem_of_In.
Qed.

Lemma nonempty_shape (gray : list (list Z)) :
  rectangular gray = true -> flatten gray <> [] ->
  (shape0 gray * shape1 gray)%nat <> 0%nat.
Proof.
  intros Hrect Hne Hz. apply Hne. unfold flatten. apply length_zero_iff_nil.
  rewrite (length_concat_rows gray (shape1 gray)) by by apply rectangular_Forall.
  exact Hz.
Qed.

Lemma bgr2gray_range (b g r : Z) (rest : list Z) :
  is_u8 b = true -> is_u8 g = true -> is_u8 r = true ->
  is_u8 (bgr2gray (b :: g :: r :: rest)) = true.
Proof.
  rewrite !is_u8_spec. intros Hb Hg Hr.
  unfold bgr2gray, CV_DESCALE, BY15, GY15, RY15, gray_shift.
  rewrite Z.shiftr_div_pow2 by lia.
  change (Z.shiftl 1 (15 - 1)) with 16384. change (2 ^ 15) with 32768.
  split.
  - apply Z.div_pos; lia.
  - apply Z.div_lt_upper_bound; lia.
Qed.

Lemma to_gray_color_array (img : list (list color)) :
  (shape0 img * shape1 img)%nat <> 0%nat ->
  _to_gray (color_array img)
  = inr (map (map (fun c => bgr2gray (pixel_list c))) img).
Proof.
  intros Hne. unfold color_array, _to_gray, cv2_cvtColor_BGR2GRAY.
  rewrite shape0_map, shape1_map.
  assert (shape2 (map (map pixel_list) img) = 3%nat) as ->.
  { destruct img as [|[|[[c0 c1] c2] r] img]; simpl in *; [lia|lia|reflexivity]. }
  replace (shape0 img * shape1 img * 3 =? 0)%nat with false
    by (symmetry; apply Nat.eqb_neq; lia).
  simpl. unfold ret. f_equal. rewrite !map_map. apply map_ext. intros r.
  by rewrite map_map.
Qed.

(** The gray conversion of an 8-bit colour image is an 8-bit gray image. *)
Lemma to_gray_color_array_uint8 (img : list (list color)) :
  rectangular img = true ->
  forallb (forallb is_u8_color) img = true ->
  uint8_image (map (map (fun c => bgr2gray (pixel_list c))) img) = true.
Proof.
  intros Hrect Hu8. unfold uint8_image.
  rewrite rectangular_map by done. simpl.
  rewrite forallb_forall in Hu8. apply forallb_forall. intros r Hr.
  apply in_map_iff in Hr as (r0 & <- & Hr0). specialize (Hu8 _ Hr0).
  rewrite forallb_forall in Hu8. apply forallb_forall. intros v Hv.
  apply in_map_iff in Hv as ([[c0 c1] c2] & <- & Hc). specialize (Hu8 _ Hc).
  simpl in Hu8. apply andb_true_iff in Hu8 as [Hu8 H2].
  apply andb_true_iff in Hu8 as [H0 H1].
  by apply bgr2gray_range.
Qed.

Lemma enhance_pseudocolor_to_gray (COLOR_SCHEMES : gmap string (list band))
      (image : ndarray) (gray : list (list Z)) (name : string) :
  _to_gray image = inr gray ->
  enhance_pseudocolor COLOR_SCHEMES image name
  = enhance_pseudocolor COLOR_SCHEMES (Arr2 gray) name.
Proof. intros H. unfold enhance_pseudocolor. rewrite H. reflexivity. Qed.

Lemma bands_disjoint_no_common (b1 b2 : band) (y : Z) :
  bands_disjoint b1 b2 = true ->
  band_holds y b1 = true ->
  band_holds y b2 = true ->
  False.
Proof.
  destruct b1 as [[lo1 hi1] c1], b2 as [[lo2 hi2] c2].
  unfold bands_disjoint, band_holds.
  rewrite !in_band_spec, !orb_true_iff, !Z.leb_le. lia.
Qed.

Lemma pairwise_disjoint_unique (layers : list band) (b1 b2 : band) (y : Z) :
  pairwise_disjoint layers = true ->
  In b1 layers -> In b2 layers ->
  band_holds y b1 = true ->
  band_holds y b2 = true ->
  b1 = b2.
Proof.
  induction layers as [|b layers IH]; intros Hd H1 H2 Hy1 Hy2; [destruct H1|].
  simpl in Hd. apply andb_true_iff in Hd as [Hb Hd].
  rewrite forallb_forall in Hb.
  destruct H1 as [<-|H1], H2 as [<-|H2].
  - reflexivity.
  - destruct (bands_disjoint_no_common b b2 y); auto.
  - destruct (bands_disjoint_no_common b b1 y); auto.
  - by apply IH.
Qed.

Lemma last_band_Some (layers : list band) (v : Z) :
  existsb (band_holds v) layers = true ->
  exists b, last_band layers v = Some b.
Proof.
  rewrite existsb_exists. intros (b & Hb & Hin).
  unfold last_band.
  destruct (find (band_holds v) (rev layers)) as [b'|] eqn:Hfind; [eauto|].
  pose proof (find_none _ _ Hfind b) as Hnone.
  rewrite <- in_rev in Hnone. specialize (Hnone Hb). congruence.
Qed.

Lemma last_band_In (layers : list band) (v : Z) (b : band) :
  last_band layers v = Some b ->
  In b layers /\ band_holds v b = true.
Proof.
  unfold last_band. intros H. apply find_some in H as [Hin Hb].
  rewrite <- in_rev in Hin. by split.
Qed.

Lemma luma_stable_store (layers : list band) :
  luma_stable layers = true -> map store_band layers = layers.
Proof.
  unfold luma_stable. rewrite forallb_forall. intros H.
  rewrite <- (map_id layers) at 2. apply map_ext_in.
  intros [[lo hi] c] Hb. specialize (H _ Hb). cbv beta iota in H.
  apply andb_true_iff in H as [Hc _].
  unfold store_band. by rewrite color_to_uint8_id.
Qed.

(** A pixel painted by a disjoint, exhaustive, luma-stable scheme is painted
    the same when its colour is read back as an intensity. *)
Lemma paint_luma_fixed (layers : list band) (v : Z) :
  pairwise_disjoint layers = true ->
  exhaustive layers = true ->
  luma_stable layers = true ->
  is_u8 v = true ->
  paint layers (bgr2gray (pixel_list (paint layers v))) = paint layers v.
Proof.
  intros Hd He Hl Hv. apply is_u8_spec in Hv.
  unfold exhaustive in He. rewrite forallb_forall in He.
  specialize (He (Z.to_nat v)). rewrite Z2Nat.id in He by lia.
  destruct (last_band_Some layers v) as [b Hb].
  { apply He, in_seq. lia. }
  rewrite (paint_last_band layers v), Hb.
  apply last_band_In in Hb as [Hin Hbv]. destruct b as [[lo hi] c].
  unfold luma_stable in Hl. rewrite forallb_forall in Hl.
  pose proof (Hl _ Hin) as Hstable. cbv beta iota in Hstable.
  apply andb_true_iff in Hstable as [_ Hluma].
  rewrite paint_last_band.
  destruct (last_band layers (bgr2gray (pixel_list c))) as [b'|] eqn:Hb'.
  - apply last_band_In in Hb' as [Hin' Hbv'].
    assert (b' = (lo, hi, c)) as ->; [|reflexivity].
    eapply pairwise_disjoint_unique; eauto.
  - unfold last_band in Hb'.
    pose proof (find_none _ _ Hb' (lo, hi, c)) as Hnone.
    rewrite <- in_rev in Hnone. specialize (Hnone Hin).
    unfold band_holds in Hnone. congruence.
Qed.

(** C5 (amended). For a scheme whose bands are pairwise disjoint, cover
    [0,256) and each hold the luma of their own colour, colouring the result
    of [enhance_pseudocolor] on a non-empty gray image again returns that
    result. *)
Theorem enhance_pseudocolor_twice
    (COLOR_SCHEMES : gmap string (list band)) (standard layers : list band)
    (name : string) (gray : list (list Z)) :
  COLOR_SCHEMES !! "标准" = Some standard ->
  COLOR_SCHEMES !! name = Some layers ->
  pairwise_disjoint layers = true ->
  exhaustive layers = true ->
  luma_stable layers = true ->
  uint8_image gray = true ->
  flatten gray <> [] ->
  exists once,
    enhance_pseudocolor COLOR_SCHEMES (Arr2 gray) name = inr once
    /\ enhance_pseudocolor COLOR_SCHEMES (color_array once) name = inr once.
Proof.
  intros Hstd Hname Hd He Hl Hu8 Hne.
  pose proof (uint8_image_rectangular _ Hu8) as Hrect.
  pose proof (get_layers_found _ _ _ _ Hstd Hname) as Hget.
  exists (map (map (paint layers)) gray). split.
  - rewrite (enhance_pseudocolor_gray _ _ layers) by done.
    by rewrite luma_stable_store.
  - rewrite (enhance_pseudocolor_to_gray _ _
               (map (map (fun c => bgr2gray (pixel_list c))) (map (map (paint layers)) gray))).
    + rewrite (enhance_pseudocolor_gray _ _ layers); [|done|].
      * rewrite luma_stable_store by done. f_equal.
        rewrite !map_map.
        apply map_ext_in. intros r Hr. rewrite !map_map.
        apply map_ext_in. intros v Hv.
        apply paint_luma_fixed; try done.
        unfold uint8_image in Hu8. apply andb_true_iff in Hu8 as [_ Hu8].
        rewrite forallb_forall in Hu8. specialize (Hu8 _ Hr).
        rewrite forallb_forall in Hu8. by apply Hu8.
      * by do 2 apply rectangular_map.
    + apply to_gray_color_array. rewrite shape0_map, shape1_map.
      by apply nonempty_shape.
Qed.

Lemma enhance_pseudocolor_twice_witness :
  exists once,
    enhance_pseudocolor {[ "标准" := two_tone ]} (Arr2 [[0; 127]; [128; 255]]) "标准"
    = inr once
    /\ enhance_pseudocolor {[ "标准" := two_tone ]} (color_array once) "标准" = inr once.
Proof.
  apply (enhance_pseudocolor_twice {[ "标准" := two_tone ]} two_tone two_tone "标准"
           [[0; 127]; [128; 255]]);
    try reflexivity.
  discriminate.
Defined.

(** Disjoint and exhaustive bands are not enough: the inverted scheme paints
    a black pixel white, and the white pixel, read back as intensity 255, is
    painted black by the second pass. *)
Lemma enhance_pseudocolor_twice_differs :
  ~ (forall (COLOR_SCHEMES : gmap string (list band)) (standard layers : list band)
            (name : string) (gray : list (list Z)),
        COLOR_SCHEMES !! "标准" = Some standard ->
        COLOR_SCHEMES !! name = Some layers ->
        pairwise_disjoint layers = true ->
        exhaustive layers = true ->
        uint8_image gray = true ->
        exists once,
          enhance_pseudocolor COLOR_SCHEMES (Arr2 gray) name = inr once
          /\ enhance_pseudocolor COLOR_SCHEMES (color_array once) name = inr once).
Proof.
  intros H.
  assert (({[ "标准" := inverted ]} : gmap string (list band)) !! "标准" = Some inverted)
    as Hstd by reflexivity.
  destruct (H {[ "标准" := inverted ]} inverted inverted "标准" [[0]]
              Hstd Hstd eq_refl eq_refl eq_refl) as (once & Hone & Htwo).
  vm_compute in Hone. injection Hone as <-.
  vm_compute in Htwo. congruence.
Qed.

(** On an empty gray image the second pass does not even return: the
    colour image is empty and the gray conversion refuses it. *)
Lemma enhance_pseudocolor_twice_empty :
  enhance_pseudocolor {[ "标准" := two_tone ]} (Arr2 []) "标准" = inr []
  /\ enhance_pseudocolor {[ "标准" := two_tone ]} (color_array []) "标准" = inl cv2_error.
Proof. split; reflexivity. Qed.

(** ** Errors of [preprocess_image] *)

Lemma cv2_cvtColor_BGR2GRAY_error (a : list (list (list Z))) (e : exn) :
  cv2_cvtColor_BGR2GRAY a = inl e
  <-> ((shape0 a * shape1 a * shape2 a)%nat = 0%nat
       \/ (shape2 a <> 3%nat /\ shape2 a <> 4%nat))
      /\ e = cv2_error.
Proof.
  unfold cv2_cvtColor_BGR2GRAY.
  destruct (Nat.eqb_spec (shape0 a * shape1 a * shape2 a) 0) as [Hz|Hnz].
  - split; [intros [= <-]; by split; [left|]|by intros [_ ->]].
  - destruct (Nat.eqb_spec (shape2 a) 3) as [H3|H3], (Nat.eqb_spec (shape2 a) 4) as [H4|H4];
      cbn [orb negb]; unfold raise, ret;
      (split; [intros [= <-] || discriminate|intros [[?|[? ?]] ->]]);
      try done; try (split; [by right|done]).
Qed.

(** C9 (amended). [preprocess_image] has no error classes of its own and
    wraps nothing.  For an offset that fits a double it fails in exactly
    three cases, handing its caller the exception as it was raised:
    [cv2.error] from the gray conversion of a 3-D buffer that is empty or has
    a channel count other than 3 and 4; the exception of the CLAHE filter;
    [AttributeError] from the method's own debug line when the buffer that
    reaches [cv2.convertScaleAbs] has no element (the call then returns
    [None]). *)
Theorem preprocess_image_errors
    (CLAHE_apply : list (list Z) -> result (list (list Z)))
    (image : ndarray) (apply_clahe : bool) (contrast : Q) (brightness : Z) (e : exn) :
  fits_double brightness = true ->
  preprocess_image CLAHE_apply image apply_clahe contrast brightness = inl e
  <-> (exists a,
          image = Arr3 a
          /\ ((shape0 a * shape1 a * shape2 a)%nat = 0%nat
              \/ (shape2 a <> 3%nat /\ shape2 a <> 4%nat))
          /\ e = cv2_error)
      \/ (exists gray,
             _to_gray image = inr gray /\ apply_clahe = true
             /\ CLAHE_apply gray = inl e)
      \/ (exists gray gray',
             _to_gray image = inr gray
             /\ (if apply_clahe then CLAHE_apply gray else ret gray) = inr gray'
             /\ (shape0 gray' * shape1 gray')%nat = 0%nat
             /\ e = AttributeError).
Proof.
  intros Hfits. apply fits_double_Some in Hfits as [b Hb].
  unfold preprocess_image. rewrite try_except_reraise. split.
  - destruct (_to_gray image) as [e0|gray] eqn:Hgray; cbn [bind].
    + intros [= ->]. left.
      destruct image as [a|a]; [discriminate|]. exists a.
      cbn [_to_gray] in Hgray. apply cv2_cvtColor_BGR2GRAY_error in Hgray as [Hbad ->].
      by split.
    + destruct (if apply_clahe then CLAHE_apply gray else ret gray)
        as [e1|gray'] eqn:Hclahe; cbn [bind].
      * intros [= ->]. right. left. exists gray.
        destruct apply_clahe; [done|discriminate].
      * unfold cv2_convertScaleAbs. rewrite Hb.
        destruct (Nat.eqb_spec (shape0 gray' * shape1 gray') 0) as [Hz|Hnz];
          cbn [bind ret log_shape]; [|discriminate].
        intros [= <-]. right. right. exists gray, gray'. by rewrite Hclahe.
  - intros [(a & -> & Hbad & ->)|[(gray & Hgray & -> & Hclahe)
                                  |(gray & gray' & Hgray & Hclahe & Hz & ->)]].
    + cbn [_to_gray].
      assert (cv2_cvtColor_BGR2GRAY a = inl cv2_error) as ->; [|reflexivity].
      by apply cv2_cvtColor_BGR2GRAY_error.
    + rewrite Hgray. cbn [bind]. by rewrite Hclahe.
    + rewrite Hgray. cbn [bind]. rewrite Hclahe. cbn [bind].
      unfold cv2_convertScaleAbs. rewrite Hb.
      apply Nat.eqb_eq in Hz. by rewrite Hz.
Qed.

Lemma preprocess_image_errors_witness :
  preprocess_image (fun gray => ret gray) (Arr2 [[]; []]) false 2 (-50) = inl AttributeError
  <-> (exists a,
          Arr2 [[]; []] = Arr3 a
          /\ ((shape0 a * shape1 a * shape2 a)%nat = 0%nat
              \/ (shape2 a <> 3%nat /\ shape2 a <> 4%nat))
          /\ AttributeError = cv2_error)
      \/ (exists gray,
             _to_gray (Arr2 [[]; []]) = inr gray /\ false = true
             /\ (fun gray => ret gray) gray = inl AttributeError)
      \/ (exists gray gray',
             _to_gray (Arr2 [[]; []]) = inr gray
             /\ (if false then (fun gray => ret gray) gray else ret gray) = inr gray'
             /\ (shape0 gray' * shape1 gray')%nat = 0%nat
             /\ AttributeError = AttributeError).
Proof.
  apply (preprocess_image_errors (fun gray => ret gray) (Arr2 [[]; []]) false 2 (-50)
           AttributeError).
  reflexivity.
Defined.

(** An image of one pixel with two channels makes [preprocess_image] raise
    OpenCV's own [cv2.error]: no [DecodeError], [InvalidImageError] or
    wrapping [ProcessingError] is involved. *)
Lemma preprocess_image_raises_cv2_error :
  ~ (forall (CLAHE_apply : list (list Z) -> result (list (list Z)))
            (image : ndarray) (apply_clahe : bool) (contrast : Q) (brightness : Z)
            (e : exn),
        preprocess_image CLAHE_apply image apply_clahe contrast brightness = inl e ->
        exn_class e = "DecodeError"
        \/ exn_class e = "InvalidImageError"
        \/ (exn_class e = "ProcessingError" /\ exists cause, exn_cause e = Some cause)).
Proof.
  intros H.
  destruct (H (fun gray => ret gray) (Arr3 [[[1; 2]]]) false 1%Q 0
              cv2_error eq_refl) as [Hc|[Hc|[Hc _]]];
    discriminate Hc.
Qed.

(** * Further properties of the processor *)

(** ** The range and the shape of the remap *)

Lemma uint8_image_scale_abs (gray : list (list Z)) (alpha beta : Q) :
  rectangular gray = true ->
  uint8_image (map (map (scale_abs alpha beta)) gray) = true.
Proof.
  intros Hrect. unfold uint8_image. rewrite rectangular_map by done. simpl.
  apply forallb_forall. intros r Hr.
  apply in_map_iff in Hr as (r0 & <- & _).
  apply forallb_forall. intros v Hv.
  apply in_map_iff in Hv as (v0 & <- & _).
  apply scale_abs_range.
Qed.

(** An offset too large for a double is refused by the binding of
    [cv2.convertScaleAbs] before any pixel is touched. *)
Lemma preprocess_image_offset_overflow
    (CLAHE_apply : list (list Z) -> result (list (list Z)))
    (image : ndarray) (apply_clahe : bool) (contrast : Q) (brightness : Z)
    (gray equalized : list (list Z)) :
  fits_double brightness = false ->
  _to_gray image = inr gray ->
  (if apply_clahe then CLAHE_apply gray else inr gray) = inr equalized ->
  preprocess_image CLAHE_apply image apply_clahe contrast brightness = inl cv2_error.
Proof.
  intros Hfits Hgray Heq. unfold fits_double in Hfits.
  unfold preprocess_image. rewrite try_except_reraise, Hgray. cbn [bind].
  unfold ret. rewrite Heq. cbn [bind]. unfold cv2_convertScaleAbs.
  by destruct (binary64 (inject_Z brightness)).
Qed.

(** X1. Whatever the gain, the offset and the integers the buffer holds,
    what [preprocess_image] returns for a non-empty buffer is an 8-bit image
    of the same height and width: nothing leaves [0, 255].  It does return
    whenever the offset fits a double. *)
Theorem preprocess_image_uint8
    (CLAHE_apply : list (list Z) -> result (list (list Z)))
    (image : ndarray) (apply_clahe : bool) (contrast : Q) (brightness : Z)
    (gray equalized : list (list Z)) :
  _to_gray image = inr gray ->
  (if apply_clahe then CLAHE_apply gray else inr gray) = inr equalized ->
  rectangular equalized = true ->
  flatten equalized <> [] ->
  (forall out,
      preprocess_image CLAHE_apply image apply_clahe contrast brightness = inr out ->
      uint8_image out = true
      /\ shape0 out = shape0 equalized
      /\ shape1 out = shape1 equalized)
  /\ (fits_double brightness = true ->
      exists out,
        preprocess_image CLAHE_apply image apply_clahe contrast brightness = inr out).
Proof.
  intros Hgray Heq Hrect Hne.
  assert (forall b, binary64 (inject_Z brightness) = Some b ->
                    preprocess_image CLAHE_apply image apply_clahe contrast brightness
                    = inr (map (map (scale_abs contrast b)) equalized)) as Hrun.
  { intros b Hb.
    unfold preprocess_image. rewrite try_except_reraise, Hgray. cbn [bind].
    unfold ret. rewrite Heq. cbn [bind]. unfold cv2_convertScaleAbs. rewrite Hb.
    replace (shape0 equalized * shape1 equalized =? 0)%nat with false; [reflexivity|].
    symmetry. apply Nat.eqb_neq. by apply nonempty_shape. }
  split.
  - intros out Hout.
    destruct (fits_double brightness) eqn:Hfits.
    + apply fits_double_Some in Hfits as [b Hb].
      rewrite (Hrun b Hb) in Hout. injection Hout as <-.
      split; [by apply uint8_image_scale_abs|].
      split; [apply shape0_map|apply shape1_map].
    + rewrite (preprocess_image_offset_overflow _ _ _ _ _ gray equalized) in Hout by done.
      discriminate.
  - intros Hfits. apply fits_double_Some in Hfits as [b Hb]. eauto.
Qed.

Lemma preprocess_image_uint8_witness :
  (forall out,
      preprocess_image (fun gray => ret gray) (Arr2 [[-7; 300]; [12; 90]]) false 2 (-50)
      = inr out ->
      uint8_image out = true
      /\ shape0 out = shape0 [[-7; 300]; [12; 90]]
      /\ shape1 out = shape1 [[-7; 300]; [12; 90]])
  /\ (fits_double (-50) = true ->
      exists out,
        preprocess_image (fun gray => ret gray) (Arr2 [[-7; 300]; [12; 90]]) false 2 (-50)
        = inr out).
Proof.
  apply (preprocess_image_uint8 (fun gray => ret gray)
           (Arr2 [[-7; 300]; [12; 90]]) false 2 (-50)
           [[-7; 300]; [12; 90]] [[-7; 300]; [12; 90]]);
    try reflexivity.
  discriminate.
Defined.

(** ** The default scheme is looked up on every call *)

(** X2. When the registry has no entry ["标准"], [enhance_pseudocolor] (on an
    image it can convert to gray) and [generate_legend] raise [KeyError] for
    every scheme name, also for a name the registry holds. *)
Theorem missing_default_scheme
    (COLOR_SCHEMES : gmap string (list band)) (image : ndarray)
    (gray : list (list Z)) (name : string) :
  COLOR_SCHEMES !! "标准" = None ->
  _to_gray image = inr gray ->
  enhance_pseudocolor COLOR_SCHEMES image name = inl KeyError
  /\ generate_legend COLOR_SCHEMES name = inl KeyError.
Proof.
  intros Hstd Hgray.
  assert (get_layers COLOR_SCHEMES name = inl KeyError) as Hget
      by (unfold get_layers; by rewrite Hstd).
  split.
  - unfold enhance_pseudocolor. by rewrite try_except_reraise, Hgray, Hget.
  - unfold generate_legend. by rewrite try_except_reraise, Hget.
Qed.

Lemma missing_default_scheme_witness :
  ({[ "高对比度" := two_tone ]} : gmap string (list band)) !! "高对比度" = Some two_tone
  /\ enhance_pseudocolor {[ "高对比度" := two_tone ]} (Arr2 scenario_gray) "高对比度"
     = inl KeyError
  /\ generate_legend {[ "高对比度" := two_tone ]} "高对比度" = inl KeyError.
Proof.
  split; [reflexivity|].
  apply (missing_default_scheme {[ "高对比度" := two_tone ]} (Arr2 scenario_gray)
           scenario_gray "高对比度");
    reflexivity.
Defined.

(** ** The palette of the colour image *)

Lemma paint_palette (layers : list band) (v : Z) :
  paint layers v = black \/ exists lo hi, In (lo, hi, paint layers v) layers.
Proof.
  rewrite paint_last_band.
  destruct (last_band layers v) as [[[lo hi] c]|] eqn:Hb; [|by left].
  right. exists lo, hi. by apply last_band_In in Hb as [Hin _].
Qed.

(** X3. The colour image has the height and width of the gray image, and
    each of its pixels is black or the (8-bit) colour of a band of the
    resolved scheme: no other colour is ever produced. *)
Theorem enhance_pseudocolor_palette
    (COLOR_SCHEMES : gmap string (list band)) (image : ndarray)
    (gray : list (list Z)) (name : string) (out : list (list color)) :
  _to_gray image = inr gray ->
  rectangular gray = true ->
  enhance_pseudocolor COLOR_SCHEMES image name = inr out ->
  exists layers,
    get_layers COLOR_SCHEMES name = inr layers
    /\ shape0 out = shape0 gray
    /\ shape1 out = shape1 gray
    /\ rectangular out = true
    /\ Forall (Forall (fun c => c = black
                                \/ exists lo hi c0, In (lo, hi, c0) layers
                                                    /\ c = color_to_uint8 c0)) out.
Proof.
  intros Hgray Hrect Hout.
  rewrite (enhance_pseudocolor_to_gray _ _ gray) in Hout by done.
  destruct (get_layers COLOR_SCHEMES name) as [e|layers] eqn:Hget.
  { unfold enhance_pseudocolor in Hout.
    rewrite try_except_reraise in Hout. simpl in Hout. rewrite Hget in Hout. discriminate. }
  rewrite (enhance_pseudocolor_gray _ _ layers) in Hout by done.
  injection Hout as <-. exists layers.
  split; [reflexivity|]. split; [apply shape0_map|]. split; [apply shape1_map|].
  split; [by apply rectangular_map|].
  apply Forall_forall. intros r Hr. apply list_elem_of_In, in_map_iff in Hr as (r0 & <- & _).
  apply Forall_forall. intros c Hc. apply list_elem_of_In, in_map_iff in Hc as (v & <- & _).
  destruct (paint_palette (map store_band layers) v) as [Hb|(lo & hi & Hin)]; [by left|].
  right. apply in_map_iff in Hin as ([[lo0 hi0] c0] & Heq & Hin).
  exists lo0, hi0, c0. split; [done|].
  change (store_band (lo0, hi0, c0)) with (lo0, hi0, color_to_uint8 c0) in Heq.
  injection Heq as _ _ Hc. by rewrite <- Hc.
Qed.

Lemma enhance_pseudocolor_palette_witness :
  exists layers,
    get_layers {[ "标准" := scenario_scheme ]} "柔和" = inr layers
    /\ shape0 scenario_output = shape0 scenario_gray
    /\ shape1 scenario_output = shape1 scenario_gray
    /\ rectangular scenario_output = true
    /\ Forall (Forall (fun c => c = black
                                \/ exists lo hi c0, In (lo, hi, c0) layers
                                                    /\ c = color_to_uint8 c0)) scenario_output.
Proof.
  apply (enhance_pseudocolor_palette {[ "标准" := scenario_scheme ]} (Arr2 scenario_gray)
           scenario_gray "柔和" scenario_output);
    reflexivity.
Defined.

(** ** Empty images *)

Lemma empty_shape3 (a : list (list (list Z))) :
  concat (concat a) = [] -> (shape0 a * shape1 a * shape2 a)%nat = 0%nat.
Proof.
  destruct a as [|[|[|v p] r] a]; simpl; try lia. discriminate.
Qed.

(** X4. On an array without elements the two measures part.  A 2-D one makes
    [calculate_image_stats] raise [ValueError] (the minimum of nothing) while
    [compute_histogram] returns 256 zero counts; a 3-D one makes both raise
    the [cv2.error] of the gray conversion. *)
Theorem empty_image_stats_and_histogram (image : ndarray) :
  ndarray_size image = 0%nat ->
  (ndim image = 2%nat ->
   calculate_image_stats image = inl ValueError
   /\ compute_histogram image = inr (replicate 256 0))
  /\ (ndim image = 3%nat ->
      calculate_image_stats image = inl cv2_error
      /\ compute_histogram image = inl cv2_error).
Proof.
  intros Hsize. unfold calculate_image_stats, compute_histogram.
  rewrite !try_except_reraise.
  destruct image as [a|a]; cbn [ndarray_size] in Hsize;
    apply length_zero_iff_nil in Hsize; (split; [intros H2|intros H3]); try discriminate.
  - cbn [_to_gray bind ret]. rewrite Hsize. by split.
  - cbn [_to_gray]. unfold cv2_cvtColor_BGR2GRAY.
    apply empty_shape3, Nat.eqb_eq in Hsize. rewrite Hsize. by split.
Qed.

Lemma empty_image_stats_and_histogram_witness :
  (ndim (Arr2 [[]; []; []]) = 2%nat ->
   calculate_image_stats (Arr2 [[]; []; []]) = inl ValueError
   /\ compute_histogram (Arr2 [[]; []; []]) = inr (replicate 256 0))
  /\ (ndim (Arr2 [[]; []; []]) = 3%nat ->
      calculate_image_stats (Arr2 [[]; []; []]) = inl cv2_error
      /\ compute_histogram (Arr2 [[]; []; []]) = inl cv2_error).
Proof.
  apply (empty_image_stats_and_histogram (Arr2 [[]; []; []])). reflexivity.
Defined.

(** ** The spread of the pixels *)

Lemma Qsum_nonneg (l : list Q) :
  Forall (fun q => (0 <= q)%Q) l -> (0 <= Qsum l)%Q.
Proof.
  induction 1 as [|q l Hq _ IH]; simpl; [apply Qle_refl|].
  change 0%Q with (0 + 0)%Q. by apply Qplus_le_compat.
Qed.

Lemma Qsum_zero (l : list Q) :
  Forall (fun q => (0 <= q)%Q) l -> (Qsum l == 0)%Q -> Forall (fun q => (q == 0)%Q) l.
Proof.
  induction 1 as [|q l Hq Hl IH]; simpl; intros Hz; constructor.
  - pose proof (Qsum_nonneg l Hl). lra.
  - apply IH. pose proof (Qsum_nonneg l Hl). lra.
Qed.

Lemma Qsum_all_zero (l : list Q) :
  Forall (fun q => (q == 0)%Q) l -> (Qsum l == 0)%Q.
Proof. induction 1 as [|q l Hq _ IH]; simpl; [reflexivity|]. rewrite Hq, IH. reflexivity. Qed.

Lemma Qsquare_nonneg (x : Q) : (0 <= x * x)%Q.
Proof. nra. Qed.

Lemma foldr_min_In (x : Z) (l : list Z) : In (foldr Z.min x l) (x :: l).
Proof.
  induction l as [|y l IH]; simpl; [by left|].
  destruct (Z.min_spec y (foldr Z.min x l)) as [[_ ->]|[_ ->]].
  - right. by left.
  - destruct IH as [<-|Hin]; [by left|right; by right].
Qed.

Lemma foldr_max_In (x : Z) (l : list Z) : In (foldr Z.max x l) (x :: l).
Proof.
  induction l as [|y l IH]; simpl; [by left|].
  destruct (Z.max_spec y (foldr Z.max x l)) as [[_ ->]|[_ ->]].
  - destruct IH as [<-|Hin]; [by left|right; by right].
  - right. by left.
Qed.

Lemma Zsum_const (v : Z) (l : list Z) :
  Forall (eq v) l -> Zsum l = v * Z.of_nat (length l).
Proof.
  induction 1 as [|y l <- _ IH]; simpl; [lia|]. fold (Zsum l). lia.
Qed.

Lemma np_mean_const (v : Z) (l : list Z) :
  l <> [] -> Forall (eq v) l -> (np_mean l == inject_Z v)%Q.
Proof.
  intros Hne Hl. unfold np_mean. rewrite (Zsum_const v l Hl), inject_Z_mult.
  apply Qdiv_mult_l. change 0%Q with (inject_Z 0). rewrite inject_Z_injective.
  destruct l; [done|simpl; lia].
Qed.

Lemma length_pos_Q (l : list Q) : l <> [] -> (0 < inject_Z (Z.of_nat (length l)))%Q.
Proof.
  intros Hne. change 0%Q with (inject_Z 0). rewrite <- Zlt_Qlt.
  destruct l; [done|simpl; lia].
Qed.

Lemma np_var_nonneg (a : list Z) : a <> [] -> (0 <= np_var a)%Q.
Proof.
  intros Hne. unfold np_var, np_meanQ.
  apply Qle_shift_div_l.
  - rewrite length_map. change 0%Q with (inject_Z 0). rewrite <- Zlt_Qlt.
    destruct a; [done|simpl; lia].
  - rewrite Qmult_0_l. apply Qsum_nonneg, Forall_forall. intros q Hq.
    apply list_elem_of_In, in_map_iff in Hq as (x & <- & _). apply Qsquare_nonneg.
Qed.

Lemma np_var_zero (a : list Z) :
  a <> [] ->
  ((np_var a == 0)%Q <-> Forall (fun x => (inject_Z x == np_mean a)%Q) a).
Proof.
  intros Hne. unfold np_var, np_meanQ.
  set (m := np_mean a).
  set (sq := map (fun x => ((inject_Z x - m) * (inject_Z x - m))%Q) a).
  assert (Forall (fun q => (0 <= q)%Q) sq) as Hsq.
  { apply Forall_forall. intros q Hq.
    apply list_elem_of_In, in_map_iff in Hq as (x & <- & _). apply Qsquare_nonneg. }
  assert (0 < inject_Z (Z.of_nat (length sq)))%Q as Hn.
  { unfold sq. rewrite length_map. change 0%Q with (inject_Z 0). rewrite <- Zlt_Qlt.
    destruct a; [done|simpl; lia]. }
  split.
  - intros Hz.
    assert (Qsum sq == 0)%Q as Hs.
    { assert (Qsum sq == inject_Z (Z.of_nat (length sq))
                         * (Qsum sq / inject_Z (Z.of_nat (length sq))))%Q as ->.
      { symmetry. apply Qmult_div_r. lra. }
      rewrite Hz. apply Qmult_0_r. }
    pose proof (Qsum_zero sq Hsq Hs) as Hall. unfold sq in Hall.
    rewrite Forall_forall in Hall. apply Forall_forall. intros x Hx.
    assert (((inject_Z x - m) * (inject_Z x - m)) == 0)%Q as H0.
    { apply Hall, list_elem_of_In, in_map_iff. exists x.
      split; [reflexivity|by apply list_elem_of_In]. }
    apply Qmult_integral in H0. lra.
  - intros Hall.
    assert (Qsum sq == 0)%Q as ->.
    { apply Qsum_all_zero, Forall_forall. intros q Hq. unfold sq in Hq.
      apply list_elem_of_In, in_map_iff in Hq as (x & <- & Hx).
      rewrite Forall_forall in Hall. apply list_elem_of_In, Hall in Hx.
      rewrite Hx. ring. }
    apply Qmult_0_l.
Qed.

(** X5. On a non-empty image the variance behind ["std"] is not negative,
    and it is zero exactly when the minimum equals the maximum; the mean and
    the median then equal them too. *)
Theorem calculate_image_stats_spread (image : ndarray) (gray : list (list Z)) :
  _to_gray image = inr gray ->
  flatten gray <> [] ->
  exists st,
    calculate_image_stats image = inr st
    /\ (0 <= s_std_sq st)%Q
    /\ ((s_std_sq st == 0)%Q <-> (s_min st == s_max st)%Q)
    /\ ((s_min st == s_max st)%Q ->
        (s_mean st == s_min st)%Q /\ (s_median st == s_min st)%Q).
Proof.
  intros Hgray Hne.
  destruct (flatten gray) as [|x l] eqn:Hflat; [done|].
  set (mn := foldr Z.min x l). set (mx := foldr Z.max x l).
  exists {| s_min := inject_Z mn;
            s_max := inject_Z mx;
            s_mean := np_mean (x :: l);
            s_std_sq := np_var (x :: l);
            s_width := inject_Z (Z.of_nat (shape1 gray));
            s_height := inject_Z (Z.of_nat (shape0 gray));
            s_median := np_median (x :: l) |}.
  cbn [s_min s_max s_mean s_std_sq s_median].
  pose proof (foldr_min_le x l) as Hmin. pose proof (foldr_max_ge x l) as Hmax.
  pose proof (foldr_min_In x l) as Hmin_in. pose proof (foldr_max_In x l) as Hmax_in.
  fold mn in Hmin, Hmin_in. fold mx in Hmax, Hmax_in.
  assert (mn = mx -> Forall (eq mn) (x :: l)) as Hconst.
  { intros Heq. rewrite Forall_forall in Hmin, Hmax. apply Forall_forall. intros y Hy.
    specialize (Hmin y Hy). specialize (Hmax y Hy). simpl in Hmin, Hmax. lia. }
  split; [|split; [|split]].
  - unfold calculate_image_stats. rewrite try_except_reraise, Hgray. cbn [bind].
    rewrite Hflat. reflexivity.
  - by apply np_var_nonneg.
  - rewrite np_var_zero by done. rewrite inject_Z_injective. split.
    + intros Hall. rewrite Forall_forall in Hall.
      apply list_elem_of_In, Hall in Hmin_in. apply list_elem_of_In, Hall in Hmax_in.
      apply inject_Z_injective. rewrite Hmin_in, Hmax_in. reflexivity.
    + intros Heq. specialize (Hconst Heq).
      eapply Forall_impl; [exact Hconst|]. intros y <-. simpl.
      symmetry. by apply np_mean_const.
  - rewrite inject_Z_injective. intros Heq. specialize (Hconst Heq). split.
    + by apply np_mean_const.
    + rewrite np_median_middle by done.
      assert (Forall (eq mn) (merge_sort Z.le (x :: l))) as Hs
          by by rewrite merge_sort_Permutation.
      assert (length (merge_sort Z.le (x :: l)) = length (x :: l)) as Hlen
          by apply Permutation_length, merge_sort_Permutation.
      assert (length (x :: l) / 2 < length (x :: l))%nat as Hhalf
          by (apply Nat.div_lt; simpl; lia).
      assert ((length (x :: l) - 1) / 2 <= length (x :: l) / 2)%nat as Hidx
          by (apply Nat.Div0.div_le_mono; lia).
      rewrite <- (nth_Forall (eq mn) _ ((length (x :: l) - 1) / 2) Hs) by lia.
      rewrite <- (nth_Forall (eq mn) _ (length (x :: l) / 2) Hs) by lia.
      unfold Qeq. simpl. lia.
Qed.

Lemma calculate_image_stats_spread_witness :
  exists st,
    calculate_image_stats (Arr2 [[7; 7]; [7; 7]]) = inr st
    /\ (0 <= s_std_sq st)%Q
    /\ ((s_std_sq st == 0)%Q <-> (s_min st == s_max st)%Q)
    /\ ((s_min st == s_max st)%Q ->
        (s_mean st == s_min st)%Q /\ (s_median st == s_min st)%Q).
Proof.
  apply (calculate_image_stats_spread (Arr2 [[7; 7]; [7; 7]]) [[7; 7]; [7; 7]]).
  - reflexivity.
  - discriminate.
Defined.

(** ** Rounding *)

Lemma pow2_pos (e : Z) : (0 < pow2 e)%Q.
Proof. apply Qpower_0_lt. reflexivity. Qed.

Lemma pow2_plus (a b : Z) : (pow2 (a + b) == pow2 a * pow2 b)%Q.
Proof. apply Qpower_plus. discriminate. Qed.

Lemma pow2_Z (e : Z) : 0 <= e -> (pow2 e == inject_Z (2 ^ e))%Q.
Proof. intros He. unfold pow2. by rewrite Zpower_Qpower. Qed.

Lemma pow2_le (a b : Z) : a <= b -> (pow2 a <= pow2 b)%Q.
Proof. intros Hab. apply Qpower_le_compat_l; [exact Hab|]. discriminate. Qed.

Lemma cvRound_le_half (x : Q) : (inject_Z (cvRound x) <= x + (1 # 2))%Q.
Proof.
  unfold cvRound. pose proof (Qfloor_le x) as Hf.
  destruct (x - inject_Z (Qfloor x) ?= 1 # 2)%Q eqn:Hc.
  - apply Qeq_alt in Hc. destruct (Z.even (Qfloor x)).
    + lra.
    + rewrite inject_Z_plus. change (inject_Z 1) with 1%Q. lra.
  - lra.
  - apply Qgt_alt in Hc. rewrite inject_Z_plus. change (inject_Z 1) with 1%Q. lra.
Qed.

Lemma cvRound_nonpos (x : Q) : (x <= 0)%Q -> cvRound x <= 0.
Proof.
  intros Hx. unfold cvRound.
  assert (Qfloor x <= 0) as Hf.
  { change 0 with (Qfloor 0). by apply Qfloor_resp_le. }
  destruct (Z.eq_dec (Qfloor x) 0) as [H0|Hn0].
  - rewrite H0.
    assert ((x - inject_Z 0 ?= 1 # 2)%Q = Lt) as ->; [|lia].
    apply (proj1 (Qlt_alt _ _)). unfold inject_Z. lra.
  - destruct (x - inject_Z (Qfloor x) ?= 1 # 2)%Q; [destruct (Z.even _)|..]; lia.
Qed.

Lemma cvRound_nonneg (x : Q) : (0 <= x)%Q -> 0 <= cvRound x.
Proof.
  intros Hx. unfold cvRound.
  assert (0 <= Qfloor x) as Hf.
  { change 0 with (Qfloor 0). by apply Qfloor_resp_le. }
  destruct (x - inject_Z (Qfloor x) ?= 1 # 2)%Q; [destruct (Z.even _)|..]; lia.
Qed.

Lemma ilog2_le (x : Q) : ~ (x == 0)%Q -> (pow2 (ilog2 x) <= Qabs x)%Q.
Proof.
  intros Hx. unfold ilog2.
  set (n := Z.abs (Qnum x)). set (d := Z.pos (Qden x)).
  destruct (Qle_bool (pow2 (Z.log2 n - Z.log2 d)) (Qabs x)) eqn:Hle.
  - by apply Qle_bool_iff.
  - assert (0 < n) as Hn.
    { unfold n. destruct x as [[|p|p] q]; simpl; try lia. exfalso. apply Hx. reflexivity. }
    assert (0 < d) as Hd by (unfold d; lia).
    destruct (Z.log2_spec n Hn) as [Hn1 _]. destruct (Z.log2_spec d Hd) as [_ Hd2].
    pose proof (Z.log2_nonneg n) as Hln. pose proof (Z.log2_nonneg d) as Hld.
    assert (Qabs x == inject_Z n / inject_Z d)%Q as ->.
    { destruct x as [a q]. unfold Qabs, n, d. simpl. rewrite (Qmake_Qdiv (Z.abs a) q). reflexivity. }
    assert (0 < inject_Z d)%Q as HdQ by (change 0%Q with (inject_Z 0); by rewrite <- Zlt_Qlt).
    apply Qle_shift_div_l; [exact HdQ|].
    apply Qle_trans with (pow2 (Z.log2 n - Z.log2 d - 1) * pow2 (Z.succ (Z.log2 d)))%Q.
    + apply Qmult_le_l; [apply pow2_pos|].
      rewrite pow2_Z by lia. rewrite <- Zle_Qle. lia.
    + rewrite <- pow2_plus.
      replace (Z.log2 n - Z.log2 d - 1 + Z.succ (Z.log2 d)) with (Z.log2 n) by lia.
      rewrite pow2_Z by lia. by rewrite <- Zle_Qle.
Qed.

Lemma pow2_half (e : Z) : (pow2 e * (1 # 2) == pow2 (e - 1))%Q.
Proof.
  replace (e - 1) with (e + -1) by lia. rewrite pow2_plus. reflexivity.
Qed.

Lemma round_to_zero (prec emin : Z) (x : Q) : (x == 0)%Q -> round_to prec emin x = 0%Q.
Proof.
  intros Hx. unfold round_to. apply Qeq_bool_iff in Hx. by rewrite Hx.
Qed.

Lemma round_to_grid (prec emin : Z) (x : Q) :
  ~ (x == 0)%Q ->
  let u := pow2 (Z.max (ilog2 x - (prec - 1)) emin) in
  (round_to prec emin x == inject_Z (cvRound (x / u)) * u)%Q.
Proof.
  intros Hx u. unfold round_to.
  destruct (Qeq_bool x 0) eqn:H0; [apply Qeq_bool_iff in H0; contradiction|].
  apply Qred_correct.
Qed.

Lemma round_to_nonpos (prec emin : Z) (x : Q) :
  (x <= 0)%Q -> (round_to prec emin x <= 0)%Q.
Proof.
  intros Hx. destruct (Qeq_dec x 0) as [H0|H0].
  - rewrite round_to_zero by done. apply Qle_refl.
  - rewrite round_to_grid by done.
    set (u := pow2 _). assert (0 < u)%Q as Hu by apply pow2_pos.
    assert (cvRound (x / u) <= 0) as Hr.
    { apply cvRound_nonpos. apply Qle_shift_div_r; [exact Hu|]. lra. }
    rewrite Zle_Qle in Hr. change (inject_Z 0) with 0%Q in Hr. nra.
Qed.

Lemma round_to_nonneg (prec emin : Z) (x : Q) :
  (0 <= x)%Q -> (0 <= round_to prec emin x)%Q.
Proof.
  intros Hx. destruct (Qeq_dec x 0) as [H0|H0].
  - rewrite round_to_zero by done. apply Qle_refl.
  - rewrite round_to_grid by done.
    set (u := pow2 _). assert (0 < u)%Q as Hu by apply pow2_pos.
    assert (0 <= cvRound (x / u)) as Hr.
    { apply cvRound_nonneg. apply Qle_shift_div_l; [exact Hu|]. lra. }
    rewrite Zle_Qle in Hr. change (inject_Z 0) with 0%Q in Hr. nra.
Qed.

Lemma round_to_grid_upper (prec emin : Z) (x : Q) :
  ~ (x == 0)%Q ->
  (round_to prec emin x
   <= x + pow2 (Z.max (ilog2 x - (prec - 1)) emin) * (1 # 2))%Q.
Proof.
  intros Hx. rewrite round_to_grid by done.
  set (u := pow2 _). assert (0 < u)%Q as Hu by apply pow2_pos.
  pose proof (cvRound_le_half (x / u)) as Hr.
  apply Qle_trans with ((x / u + (1 # 2)) * u)%Q.
  - apply Qmult_le_compat_r; [exact Hr|lra].
  - assert ((x / u + (1 # 2)) * u == x + u * (1 # 2))%Q as ->; [field; lra|apply Qle_refl].
Qed.

Lemma round_to_upper (prec emin : Z) (x : Q) :
  (0 <= x)%Q ->
  (round_to prec emin x <= x * (1 + pow2 (- prec)) + pow2 (emin - 1))%Q.
Proof.
  intros Hx. pose proof (pow2_pos (- prec)) as Hp. pose proof (pow2_pos (emin - 1)) as Hm.
  destruct (Qeq_dec x 0) as [H0|H0].
  - rewrite round_to_zero by done. nra.
  - eapply Qle_trans; [by apply round_to_grid_upper|].
    assert (pow2 (ilog2 x) <= x)%Q as Hlog.
    { eapply Qle_trans; [by apply ilog2_le|]. rewrite Qabs_pos by done. apply Qle_refl. }
    destruct (Z.max_spec (ilog2 x - (prec - 1)) emin) as [[_ ->]|[_ ->]].
    + rewrite pow2_half. nra.
    + rewrite pow2_half.
      replace (ilog2 x - (prec - 1) - 1) with (ilog2 x + - prec) by lia.
      rewrite pow2_plus. nra.
Qed.

Lemma round_to_upper_normal (prec emin : Z) (x : Q) :
  (pow2 (emin + prec - 1) <= x)%Q ->
  (round_to prec emin x <= x * (1 + pow2 (- prec)))%Q.
Proof.
  intros Hn. pose proof (pow2_pos (- prec)) as Hp.
  pose proof (pow2_pos (emin + prec - 1)) as Hpos.
  assert (~ (x == 0)%Q) as H0 by lra.
  eapply Qle_trans; [by apply round_to_grid_upper|].
  assert (pow2 (ilog2 x) <= x)%Q as Hlog.
  { eapply Qle_trans; [by apply ilog2_le|]. rewrite Qabs_pos by lra. apply Qle_refl. }
  destruct (Z.max_spec (ilog2 x - (prec - 1)) emin) as [[_ ->]|[_ ->]].
  - rewrite pow2_half.
    replace (emin - 1) with (emin + prec - 1 + - prec) by lia.
    rewrite pow2_plus. nra.
  - rewrite pow2_half.
    replace (ilog2 x - (prec - 1) - 1) with (ilog2 x + - prec) by lia.
    rewrite pow2_plus. nra.
Qed.

Lemma binary_Some (prec emin emax : Z) (x r : Q) :
  binary prec emin emax x = Some r -> r = round_to prec emin x.
Proof.
  unfold binary. destruct (Qle_bool _ _); [discriminate|]. by intros [= <-].
Qed.

Lemma binary_finite (prec emin emax : Z) (x : Q) :
  (Qabs (round_to prec emin x) < pow2 emax)%Q ->
  binary prec emin emax x = Some (round_to prec emin x).
Proof.
  intros Hlt. unfold binary.
  destruct (Qle_bool _ _) eqn:Hle; [|reflexivity].
  apply Qle_bool_iff in Hle. lra.
Qed.

Lemma round_to_64_upper (x : Q) :
  (0 <= x)%Q ->
  (0 <= round_to 53 (-1074) x)%Q /\ (round_to 53 (-1074) x <= x * D64 + E64)%Q.
Proof.
  intros Hx. split; [by apply round_to_nonneg|].
  eapply Qle_trans; [by apply round_to_upper|].
  assert (pow2 (- (53)) == 1 # 9007199254740992)%Q as -> by reflexivity.
  assert (pow2 (-1074 - 1) <= E64)%Q as He.
  { apply Qle_trans with (pow2 (-100)); [by apply pow2_le|]. by vm_compute. }
  unfold D64. lra.
Qed.

Lemma binary64_upper (x r : Q) :
  (0 <= x)%Q -> binary64 x = Some r -> (0 <= r)%Q /\ (r <= x * D64 + E64)%Q.
Proof.
  intros Hx Hr. apply binary_Some in Hr as ->. by apply round_to_64_upper.
Qed.

Lemma binary64_nonpos (x r : Q) :
  (x <= 0)%Q -> binary64 x = Some r -> (r <= 0)%Q.
Proof.
  intros Hx Hr. apply binary_Some in Hr as ->. by apply round_to_nonpos.
Qed.

Lemma binary64_finite (x : Q) :
  (0 <= x)%Q -> (x <= inject_Z (2 ^ 100))%Q -> exists r, binary64 x = Some r.
Proof.
  intros H0 Hx. eexists. apply binary_finite.
  destruct (round_to_64_upper x H0) as [Hr0 Hr].
  rewrite Qabs_pos by done.
  apply Qle_lt_trans with (inject_Z (2 ^ 100) * D64 + E64)%Q.
  - unfold D64 in *. lra.
  - rewrite pow2_Z by lia. by vm_compute.
Qed.

Lemma py_trunc_pos_le (x : Q) : 0 < py_trunc x -> (inject_Z (py_trunc x) <= x)%Q.
Proof.
  unfold py_trunc. destruct (Qle_bool 0 x) eqn:Hx.
  - intros _. apply Qfloor_le.
  - intros Hpos. exfalso.
    assert (x <= 0)%Q as Hneg.
    { destruct (Qlt_le_dec 0 x) as [Hlt|Hle]; [|exact Hle].
      apply Qlt_le_weak, Qle_bool_iff in Hlt. congruence. }
    apply Qceiling_resp_le in Hneg. change (Qceiling 0) with 0 in Hneg. lia.
Qed.

Lemma py_trunc_unit (x : Q) : (0 <= x)%Q -> (x < 1)%Q -> py_trunc x = 0.
Proof.
  intros H0 H1. unfold py_trunc.
  replace (Qle_bool 0 x) with true by (symmetry; by apply Qle_bool_iff).
  pose proof (Qfloor_le x) as Hf.
  assert (inject_Z (Qfloor x) < inject_Z 1)%Q as Hlt
      by (eapply Qle_lt_trans; [exact Hf|exact H1]).
  rewrite <- Zlt_Qlt in Hlt.
  apply Qfloor_resp_le in H0. change (Qfloor 0) with 0 in H0. lia.
Qed.

Lemma py_min_le (a b : Q) : (py_min a b <= a)%Q /\ (py_min a b <= b)%Q.
Proof.
  unfold py_min. destruct (Qle_bool a b) eqn:Hab.
  - apply Qle_bool_iff in Hab. split; [apply Qle_refl|exact Hab].
  - split; [|apply Qle_refl].
    destruct (Qlt_le_dec b a) as [Hlt|Hle]; [by apply Qlt_le_weak|].
    apply Qle_bool_iff in Hle. congruence.
Qed.

Lemma py_min_nonneg (a b : Q) : (0 <= a)%Q -> (0 <= b)%Q -> (0 <= py_min a b)%Q.
Proof. intros Ha Hb. unfold py_min. by destruct (Qle_bool a b). Qed.

Lemma Qmult_le_bounds (a b A B : Q) :
  (0 <= a)%Q -> (a <= A)%Q -> (0 <= b)%Q -> (b <= B)%Q -> (a * b <= A * B)%Q.
Proof. intros. nra. Qed.

(** ** Resizing *)

Lemma py_truediv_inr (a b : Z) (q : Q) :
  py_truediv a b = inr q -> b <> 0 /\ binary64 (inject_Z a / inject_Z b) = Some q.
Proof.
  unfold py_truediv. destruct (Z.eqb_spec b 0); [discriminate|].
  destruct (binary64 _) as [q0|]; [|discriminate]. intros [= <-]. by split.
Qed.

Lemma py_int_mul_inr (n m : Z) (x : Q) :
  py_int_mul n x = inr m ->
  exists f p, binary64 (inject_Z n) = Some f /\ binary64 (f * x) = Some p /\ m = py_trunc p.
Proof.
  unfold py_int_mul, py_float.
  destruct (binary64 (inject_Z n)) as [f|] eqn:Hf; [|discriminate]. cbn [bind ret].
  destruct (binary64 (f * x)) as [p|] eqn:Hp; [|discriminate]. intros [= <-]. eauto.
Qed.

Lemma inject_Z_side (side : Z) :
  0 < side < 2 ^ 31 -> (1 <= inject_Z side)%Q /\ (inject_Z side <= 2147483648)%Q.
Proof.
  intros [H0 H1]. split.
  - change 1%Q with (inject_Z 1). rewrite <- Zle_Qle. lia.
  - change 2147483648%Q with (inject_Z 2147483648). rewrite <- Zle_Qle. lia.
Qed.

(** The quotient of a size by a side, and what its rounding can add. *)
Lemma py_truediv_nonneg (maxside side : Z) :
  0 <= maxside < 2 ^ 31 -> 0 < side ->
  exists sx,
    py_truediv maxside side = inr sx
    /\ (0 <= sx)%Q
    /\ (sx <= inject_Z maxside / inject_Z side * D64 + E64)%Q
    /\ (sx <= 4294967296)%Q.
Proof.
  intros [Hm0 Hm1] Hs.
  assert (1 <= inject_Z side)%Q as HS
      by (change 1%Q with (inject_Z 1); rewrite <- Zle_Qle; lia).
  assert (0 <= inject_Z maxside)%Q as HM0
      by (change 0%Q with (inject_Z 0); rewrite <- Zle_Qle; lia).
  assert (inject_Z maxside <= 2147483648)%Q as HM1
      by (change 2147483648%Q with (inject_Z 2147483648); rewrite <- Zle_Qle; lia).
  set (t := (inject_Z maxside / inject_Z side)%Q).
  assert (0 <= t)%Q as Ht0 by (apply Qle_shift_div_l; lra).
  assert (t <= inject_Z maxside)%Q as Ht1 by (apply Qle_shift_div_r; nra).
  destruct (binary64_finite t Ht0) as [sx Hsx].
  { apply Qle_trans with 2147483648%Q; [lra|]. by vm_compute. }
  destruct (binary64_upper t sx Ht0 Hsx) as [H0 H1].
  exists sx. unfold py_truediv. destruct (Z.eqb_spec side 0); [lia|]. fold t. rewrite Hsx.
  repeat split; try done. unfold D64, E64 in *. lra.
Qed.

Lemma py_int_mul_finite (side : Z) (scale : Q) :
  0 < side < 2 ^ 31 -> (0 <= scale)%Q -> (scale <= 4294967296)%Q ->
  exists n, py_int_mul side scale = inr n.
Proof.
  intros Hside Hs0 Hs1. destruct (inject_Z_side side Hside) as [HS0 HS1].
  destruct (binary64_finite (inject_Z side)) as [f Hf]; [lra| |].
  { apply Qle_trans with 2147483648%Q; [lra|]. by vm_compute. }
  assert (0 <= inject_Z side)%Q as HSn by lra.
  destruct (binary64_upper _ f HSn Hf) as [Hf0 Hf1].
  assert (f <= 4294967296)%Q as Hf2 by (unfold D64, E64 in *; lra).
  destruct (binary64_finite (f * scale)) as [p Hp]; [nra| |].
  { apply Qle_trans with (4294967296 * 4294967296)%Q; [by apply Qmult_le_bounds|].
    by vm_compute. }
  exists (py_trunc p). unfold py_int_mul, py_float. rewrite Hf. cbn [bind ret]. by rewrite Hp.
Qed.

(** A scaled side that is positive does not exceed the size it was scaled
    to: the three roundings add less than one. *)
Lemma scaled_side_bound (side maxside n : Z) (sx scale : Q) :
  0 < side < 2 ^ 31 -> maxside < 2 ^ 31 ->
  py_truediv maxside side = inr sx ->
  (scale <= sx)%Q ->
  py_int_mul side scale = inr n ->
  0 < n -> n <= maxside.
Proof.
  intros Hside Hm Hdiv Hle Hmul Hn.
  destruct (inject_Z_side side Hside) as [HS0 HS1].
  apply py_truediv_inr in Hdiv as [_ Hsx].
  apply py_int_mul_inr in Hmul as (f & p & Hf & Hp & ->).
  apply py_trunc_pos_le in Hn as Hnp.
  assert (1 <= inject_Z (py_trunc p))%Q as Hn1
      by (change 1%Q with (inject_Z 1); rewrite <- Zle_Qle; lia).
  assert (0 <= inject_Z side)%Q as HSn by lra.
  destruct (binary64_upper _ f HSn Hf) as [Hf0 Hf1].
  destruct (Qlt_le_dec 0 (f * scale)) as [Hprod|Hprod];
    [|pose proof (binary64_nonpos _ p Hprod Hp); lra].
  assert (0 < scale)%Q as Hscale by nra.
  set (t := (inject_Z maxside / inject_Z side)%Q) in *.
  destruct (Qlt_le_dec 0 t) as [Ht|Ht];
    [|pose proof (binary64_nonpos _ sx Ht Hsx); lra].
  destruct (binary64_upper _ sx (Qlt_le_weak _ _ Ht) Hsx) as [_ Hsx1].
  destruct (binary64_upper _ p (Qlt_le_weak _ _ Hprod) Hp) as [_ Hp1].
  assert (inject_Z side * t == inject_Z maxside)%Q as Hst by (unfold t; field; lra).
  assert (t <= inject_Z maxside)%Q as HtM by nra.
  assert (inject_Z maxside <= 2147483647)%Q as HM1
      by (change 2147483647%Q with (inject_Z 2147483647); rewrite <- Zle_Qle; lia).
  assert (f * scale <= (inject_Z side * D64 + E64) * (t * D64 + E64))%Q as Hfs
      by (apply Qmult_le_bounds; lra).
  assert ((inject_Z side * D64 + E64) * (t * D64 + E64)
          == inject_Z maxside * D64 * D64 + inject_Z side * D64 * E64
             + t * D64 * E64 + E64 * E64)%Q as Hexp
      by (rewrite <- Hst; ring).
  rewrite Hexp in Hfs.
  assert (inject_Z (py_trunc p) < inject_Z (maxside + 1))%Q as Hlt.
  { rewrite inject_Z_plus. change (inject_Z 1) with 1%Q. unfold D64, E64 in *. lra. }
  rewrite <- Zlt_Qlt in Hlt. lia.
Qed.

(** X6. For sides and sizes that fit OpenCV's [int], and provided
    [cv2.resize] returns the size it is asked for, every image [resize_image]
    returns fits [max_size]: its width is at most [max_size[0]] and its
    height at most [max_size[1]], the rounding of the scale and of the
    products included. *)
Theorem resize_image_fits
    (INTER_AREA : ndarray -> nat -> nat -> ndarray)
    (image out : ndarray) (max_size : Z * Z) :
  (forall src w h, (0 < w)%nat -> (0 < h)%nat -> shape_hw (INTER_AREA src w h) = (h, w)) ->
  Z.of_nat (fst (shape_hw image)) < 2 ^ 31 ->
  Z.of_nat (snd (shape_hw image)) < 2 ^ 31 ->
  fst max_size < 2 ^ 31 ->
  snd max_size < 2 ^ 31 ->
  resize_image INTER_AREA image max_size = inr out ->
  Z.of_nat (snd (shape_hw out)) <= fst max_size
  /\ Z.of_nat (fst (shape_hw out)) <= snd max_size.
Proof.
  intros Hshape Hh Hw Hm0 Hm1. unfold resize_image. rewrite try_except_reraise.
  set (height := Z.of_nat (fst (shape_hw image))) in *.
  set (width := Z.of_nat (snd (shape_hw image))) in *.
  destruct ((fst max_size <? width) || (snd max_size <? height)) eqn:Hcond.
  - destruct (py_truediv (fst max_size) width) as [e|sx] eqn:Hsx; [discriminate|].
    destruct (py_truediv (snd max_size) height) as [e|sy] eqn:Hsy; [discriminate|].
    cbn [bind].
    destruct (py_int_mul width (py_min sx sy)) as [e|new_width] eqn:Hnw; [discriminate|].
    destruct (py_int_mul height (py_min sx sy)) as [e|new_height] eqn:Hnh; [discriminate|].
    cbn [bind]. unfold cv2_resize. cbn [fst snd].
    destruct (negb _); [discriminate|].
    destruct (_ =? 0)%nat; [discriminate|].
    destruct (Z.leb_spec new_width 0) as [|Hnw0]; [discriminate|].
    destruct (Z.leb_spec new_height 0) as [|Hnh0]; [discriminate|].
    cbn [orb]. intros [= <-].
    rewrite Hshape by lia. cbn [fst snd]. rewrite !Z2Nat.id by lia.
    destruct (py_min_le sx sy) as [Hlex Hley].
    pose proof (proj1 (py_truediv_inr _ _ _ Hsx)) as Hw0.
    pose proof (proj1 (py_truediv_inr _ _ _ Hsy)) as Hh0.
    split.
    + apply (scaled_side_bound width _ _ sx (py_min sx sy)); try done.
      unfold width in *; lia.
    + apply (scaled_side_bound height _ _ sy (py_min sx sy)); try done.
      unfold height in *; lia.
  - intros [= <-]. fold height width.
    apply orb_false_iff in Hcond as [H1 H2].
    apply Z.ltb_ge in H1, H2. by split.
Qed.

Lemma resize_image_fits_witness :
  resize_image (fun _ w h => Arr2 (replicate h (replicate w 0)))
               (Arr2 (replicate 2 (replicate 1568 0))) (1024, 1024)
  = inr (Arr2 (replicate 1 (replicate 1023 0)))
  /\ Z.of_nat (snd (shape_hw (Arr2 (replicate 1 (replicate 1023 0))))) <= fst (1024, 1024)
  /\ Z.of_nat (fst (shape_hw (Arr2 (replicate 1 (replicate 1023 0))))) <= snd (1024, 1024).
Proof.
  assert (resize_image (fun _ w h => Arr2 (replicate h (replicate w 0)))
                       (Arr2 (replicate 2 (replicate 1568 0))) (1024, 1024)
          = inr (Arr2 (replicate 1 (replicate 1023 0)))) as Hrun
      by (vm_compute; reflexivity).
  split; [exact Hrun|].
  apply (resize_image_fits (fun _ w h => Arr2 (replicate h (replicate w 0)))
           (Arr2 (replicate 2 (replicate 1568 0)))
           (Arr2 (replicate 1 (replicate 1023 0))) (1024, 1024)).
  - intros _ w [|h] Hw Hh; [lia|]. unfold shape_hw, shape0, shape1.
    cbn [replicate length]. by rewrite !length_replicate.
  - vm_compute; reflexivity.
  - vm_compute; reflexivity.
  - reflexivity.
  - reflexivity.
  - exact Hrun.
Defined.

(** A side scaled by less than its own inverse truncates to 0. *)
Lemma scaled_side_zero (side maxside other : Z) (sx scale : Q) :
  0 < side < 2 ^ 31 -> 0 < other < 2 ^ 31 ->
  0 <= maxside -> side * maxside < other ->
  (sx <= inject_Z maxside / inject_Z other * D64 + E64)%Q ->
  (0 <= scale)%Q -> (scale <= sx)%Q ->
  py_int_mul side scale = inr 0.
Proof.
  intros Hside Hother Hm Hthin Hsx Hs0 Hs1.
  destruct (inject_Z_side side Hside) as [HS0 HS1].
  destruct (inject_Z_side other Hother) as [HO0 HO1].
  assert (0 <= inject_Z maxside)%Q as HM0
      by (change 0%Q with (inject_Z 0); rewrite <- Zle_Qle; lia).
  set (t := (inject_Z maxside / inject_Z other)%Q) in *.
  assert (0 <= t)%Q as Ht0 by (apply Qle_shift_div_l; lra).
  assert (inject_Z side * inject_Z maxside <= inject_Z other - 1)%Q as Hthin'.
  { assert (inject_Z other - 1 == inject_Z (other + -1))%Q as ->
        by (rewrite inject_Z_plus; reflexivity).
    rewrite <- inject_Z_mult, <- Zle_Qle. lia. }
  assert (inject_Z side * t == inject_Z side * inject_Z maxside / inject_Z other)%Q as Hst
      by (unfold t; field; lra).
  assert (inject_Z side * t <= 1 - (1 # 2147483648))%Q as Hu.
  { rewrite Hst. apply Qle_shift_div_r; [lra|]. nra. }
  assert (t <= 1)%Q as Ht1 by nra.
  destruct (binary64_finite (inject_Z side)) as [f Hf]; [lra| |].
  { apply Qle_trans with 2147483648%Q; [lra|]. by vm_compute. }
  assert (0 <= inject_Z side)%Q as HSn by lra.
  destruct (binary64_upper _ f HSn Hf) as [Hf0 Hf1].
  assert (f * scale <= (inject_Z side * D64 + E64) * (t * D64 + E64))%Q as Hfs
      by (apply Qmult_le_bounds; lra).
  assert ((inject_Z side * D64 + E64) * (t * D64 + E64)
          == inject_Z side * t * D64 * D64 + inject_Z side * D64 * E64
             + t * D64 * E64 + E64 * E64)%Q as Hexp by ring.
  rewrite Hexp in Hfs.
  assert (0 <= f * scale)%Q as Hprod by nra.
  destruct (binary64_finite (f * scale) Hprod) as [p Hp].
  { apply Qle_trans with 4%Q; [unfold D64, E64 in *; lra|]. by vm_compute. }
  destruct (binary64_upper _ p Hprod Hp) as [Hp0 Hp1].
  unfold py_int_mul, py_float. rewrite Hf. cbn [bind ret]. rewrite Hp.
  f_equal. apply py_trunc_unit; [done|]. unfold D64, E64 in *. lra.
Qed.

Lemma cv2_resize_empty_dsize
      (INTER_AREA : ndarray -> nat -> nat -> ndarray) (src : ndarray) (dsize : Z * Z) :
  fst dsize <= 0 \/ snd dsize <= 0 -> cv2_resize INTER_AREA src dsize = inl cv2_error.
Proof.
  intros Hd. unfold cv2_resize.
  destruct (negb _); [reflexivity|]. destruct (_ =? 0)%nat; [reflexivity|].
  replace ((fst dsize <=? 0) || (snd dsize <=? 0)) with true; [reflexivity|].
  symmetry. apply orb_true_iff. rewrite !Z.leb_le. exact Hd.
Qed.

(** X7. An image too thin for its length cannot be resized: for sides and
    sizes that fit OpenCV's [int], when the width exceeds [max_size[0]] by
    more than the factor of the height (or the height exceeds [max_size[1]]
    by more than the factor of the width), the scaled side truncates to 0 and
    [resize_image] raises [cv2.error]. *)
Theorem resize_image_thin
    (INTER_AREA : ndarray -> nat -> nat -> ndarray)
    (image : ndarray) (max_size : Z * Z) (h w : nat) :
  shape_hw image = (h, w) ->
  (0 < h)%nat -> (0 < w)%nat ->
  Z.of_nat h < 2 ^ 31 -> Z.of_nat w < 2 ^ 31 ->
  0 <= fst max_size < 2 ^ 31 -> 0 <= snd max_size < 2 ^ 31 ->
  (fst max_size < Z.of_nat w /\ Z.of_nat h * fst max_size < Z.of_nat w)
  \/ (snd max_size < Z.of_nat h /\ Z.of_nat w * snd max_size < Z.of_nat h) ->
  resize_image INTER_AREA image max_size = inl cv2_error.
Proof.
  intros Hshape Hh Hw Hh1 Hw1 Hm0 Hm1 Hthin.
  unfold resize_image. rewrite try_except_reraise, Hshape. cbn [fst snd].
  replace ((fst max_size <? Z.of_nat w) || (snd max_size <? Z.of_nat h)) with true
    by (symmetry; apply orb_true_iff; rewrite !Z.ltb_lt; tauto).
  destruct (py_truediv_nonneg (fst max_size) (Z.of_nat w)) as (sx & -> & Hsx0 & Hsx1 & Hsx2);
    [done|lia|].
  destruct (py_truediv_nonneg (snd max_size) (Z.of_nat h)) as (sy & -> & Hsy0 & Hsy1 & Hsy2);
    [done|lia|].
  cbn [bind].
  pose proof (py_min_nonneg sx sy Hsx0 Hsy0) as Hscale.
  destruct (py_min_le sx sy) as [Hlex Hley].
  destruct Hthin as [[_ Hlt]|[_ Hlt]].
  - destruct (py_int_mul_finite (Z.of_nat w) (py_min sx sy)) as [nw ->]; [lia|done|lra|].
    cbn [bind].
    rewrite (scaled_side_zero (Z.of_nat h) (fst max_size) (Z.of_nat w) sx) by (done || lia).
    cbn [bind]. apply cv2_resize_empty_dsize. right. reflexivity.
  - rewrite (scaled_side_zero (Z.of_nat w) (snd max_size) (Z.of_nat h) sy) by (done || lia).
    cbn [bind].
    destruct (py_int_mul_finite (Z.of_nat h) (py_min sx sy)) as [nh ->]; [lia|done|lra|].
    cbn [bind]. apply cv2_resize_empty_dsize. left. reflexivity.
Qed.

Lemma resize_image_thin_witness :
  resize_image (fun _ w h => Arr2 (replicate h (replicate w 0)))
               (Arr2 [[1; 2; 3; 4; 5; 6; 7]]) (3, 3)
  = inl cv2_error.
Proof.
  apply (resize_image_thin (fun _ w h => Arr2 (replicate h (replicate w 0)))
           (Arr2 [[1; 2; 3; 4; 5; 6; 7]]) (3, 3) 1 7);
    simpl; try reflexivity; lia.
Defined.

(** ** The picture handed to the encoder *)

Lemma enhance_pseudocolor_result
      (COLOR_SCHEMES : gmap string (list band)) (image : ndarray)
      (gray : list (list Z)) (name : string) (out : list (list color)) :
  _to_gray image = inr gray ->
  rectangular gray = true ->
  enhance_pseudocolor COLOR_SCHEMES image name = inr out ->
  exists layers,
    get_layers COLOR_SCHEMES name = inr layers
    /\ out = map (map (paint (map store_band layers))) gray.
Proof.
  intros Hgray Hrect Hout.
  rewrite (enhance_pseudocolor_to_gray _ _ gray) in Hout by done.
  destruct (get_layers COLOR_SCHEMES name) as [e|layers] eqn:Hget.
  { unfold enhance_pseudocolor in Hout.
    rewrite try_except_reraise in Hout. simpl in Hout. rewrite Hget in Hout. discriminate. }
  rewrite (enhance_pseudocolor_gray _ _ layers) in Hout by done.
  injection Hout as <-. by exists layers.
Qed.

Lemma bgr2rgb_color_array (img : list (list color)) :
  (shape0 img * shape1 img)%nat <> 0%nat ->
  cv2_cvtColor_BGR2RGB (map (map pixel_list) img) = inr (map (map swap_channels) img).
Proof.
  intros Hne. unfold cv2_cvtColor_BGR2RGB.
  rewrite shape0_map, shape1_map.
  assert (shape2 (map (map pixel_list) img) = 3%nat) as ->.
  { destruct img as [|[|[[c0 c1] c2] r] img]; simpl in *; [lia|lia|reflexivity]. }
  replace (shape0 img * shape1 img * 3 =? 0)%nat with false
    by (symmetry; apply Nat.eqb_neq; lia).
  simpl. unfold ret. f_equal. rewrite !map_map. apply map_ext. intros r.
  rewrite map_map. apply map_ext. by intros [[c0 c1] c2].
Qed.

(** X8. The picture made from the colour image of a non-empty gray image is
    an RGB picture of the same width and height whose pixels are the stored
    band colours with the first and third channels exchanged: a band colour is
    read as blue, green, red. *)
Theorem convert_to_pil_enhanced
    (COLOR_SCHEMES : gmap string (list band)) (image : ndarray)
    (gray : list (list Z)) (name : string) (out : list (list color)) :
  _to_gray image = inr gray ->
  rectangular gray = true ->
  flatten gray <> [] ->
  enhance_pseudocolor COLOR_SCHEMES image name = inr out ->
  convert_to_pil (color_array out)
  = inr {| im_mode := "RGB";
           im_size := (shape1 gray, shape0 gray);
           im_data := map (map swap_channels) out |}.
Proof.
  intros Hgray Hrect Hne Hout.
  destruct (enhance_pseudocolor_result _ _ _ _ _ Hgray Hrect Hout) as (layers & _ & ->).
  unfold convert_to_pil, color_array. rewrite try_except_reraise.
  rewrite bgr2rgb_color_array.
  - cbn [bind ret]. unfold Image_fromarray.
    by rewrite !shape0_map, !shape1_map.
  - rewrite shape0_map, shape1_map. by apply nonempty_shape.
Qed.

Lemma convert_to_pil_enhanced_witness :
  convert_to_pil (color_array scenario_output)
  = inr {| im_mode := "RGB";
           im_size := (shape1 scenario_gray, shape0 scenario_gray);
           im_data := map (map swap_channels) scenario_output |}.
Proof.
  apply (convert_to_pil_enhanced {[ "标准" := scenario_scheme ]} (Arr2 scenario_gray)
           scenario_gray "标准" scenario_output);
    try reflexivity.
  discriminate.
Defined.

(** ** The cache of equalizer objects *)

(** X9. Asking again for the same configuration returns the same object
    and changes nothing: no second object is created and the cache stays as
    the first call left it. *)
Theorem _get_clahe_memo (clip_limit : Qc) (tile_grid_size : Z * Z) (st : clahe_state) :
  _get_clahe clip_limit tile_grid_size (snd (_get_clahe clip_limit tile_grid_size st))
  = _get_clahe clip_limit tile_grid_size st
  /\ (clahe_created (snd (_get_clahe clip_limit tile_grid_size st))
      <= S (clahe_created st))%nat.
Proof.
  unfold _get_clahe.
  destruct (_clahe_cache st !! (clip_limit, tile_grid_size)) as [c|] eqn:Hc.
  - cbn [snd]. rewrite Hc. split; [reflexivity|lia].
  - cbn [cv2_createCLAHE snd _clahe_cache clahe_created].
    rewrite lookup_insert_eq. split; [reflexivity|lia].
Qed.

(** X10. [_get_clahe] keeps the cache consistent: the object it returns has
    the requested clip limit and tile grid and is the one stored under that
    key afterwards, the entries of all other keys are untouched, and every
    cached object still belongs to its key, no object serving two keys. *)
Theorem _get_clahe_consistent (clip_limit : Qc) (tile_grid_size : Z * Z) (st : clahe_state) :
  cache_consistent st ->
  let r := _get_clahe clip_limit tile_grid_size st in
  cache_consistent (snd r)
  /\ clipLimit (fst r) = clip_limit
  /\ tileGridSize (fst r) = tile_grid_size
  /\ _clahe_cache (snd r) !! (clip_limit, tile_grid_size) = Some (fst r)
  /\ (forall k, k <> (clip_limit, tile_grid_size) ->
                _clahe_cache (snd r) !! k = _clahe_cache st !! k).
Proof.
  intros [Hkey Hinj]. unfold _get_clahe.
  destruct (_clahe_cache st !! (clip_limit, tile_grid_size)) as [c|] eqn:Hc; cbn zeta.
  - cbn [fst snd]. destruct (Hkey _ _ Hc) as [Hk _].
    split; [by split|]. injection Hk as Hk1 Hk2. by repeat split.
  - cbn [cv2_createCLAHE fst snd _clahe_cache clahe_created clipLimit tileGridSize].
    split; [|split; [done|split; [done|split]]].
    + split.
      * intros k c Hlook. cbn [_clahe_cache clahe_created] in *.
        destruct (decide (k = (clip_limit, tile_grid_size))) as [->|Hne].
        -- rewrite lookup_insert_eq in Hlook. injection Hlook as <-. simpl. split; [done|lia].
        -- rewrite lookup_insert_ne in Hlook by done.
           destruct (Hkey _ _ Hlook) as [? ?]. split; [done|lia].
      * intros k1 k2 c1 c2 H1 H2 Hser. cbn [_clahe_cache] in *.
        destruct (decide (k1 = (clip_limit, tile_grid_size))) as [->|Hne1];
          destruct (decide (k2 = (clip_limit, tile_grid_size))) as [->|Hne2]; [done|..].
        -- rewrite lookup_insert_eq in H1. rewrite lookup_insert_ne in H2 by done.
           injection H1 as <-. simpl in Hser.
           destruct (Hkey _ _ H2) as [_ Hlt]. lia.
        -- rewrite lookup_insert_eq in H2. rewrite lookup_insert_ne in H1 by done.
           injection H2 as <-. simpl in Hser.
           destruct (Hkey _ _ H1) as [_ Hlt]. lia.
        -- rewrite lookup_insert_ne in H1, H2 by done. by eapply Hinj.
    + apply lookup_insert_eq.
    + intros k Hne. by rewrite lookup_insert_ne.
Qed.

Lemma _get_clahe_consistent_witness :
  let r := _get_clahe (Q2Qc 2) (8, 8) {| _clahe_cache := ∅; clahe_created := 0 |} in
  cache_consistent (snd r)
  /\ clipLimit (fst r) = Q2Qc 2
  /\ tileGridSize (fst r) = (8, 8)
  /\ _clahe_cache (snd r) !! (Q2Qc 2, (8, 8)) = Some (fst r)
  /\ (forall k, k <> (Q2Qc 2, (8, 8)) ->
                _clahe_cache (snd r) !! k
                = _clahe_cache {| _clahe_cache := ∅; clahe_created := 0 |} !! k).
Proof.
  apply (_get_clahe_consistent (Q2Qc 2) (8, 8) {| _clahe_cache := ∅; clahe_created := 0 |}).
  split.
  - intros k c Hk. simpl in Hk. by rewrite lookup_empty in Hk.
  - intros k1 k2 c1 c2 Hk. simpl in Hk. by rewrite lookup_empty in Hk.
Defined.

(** * Properties of the history manager *)

(** ** Adding an entry *)

Lemma py_prefix_take {A} (n : Z) (l : list A) :
  0 <= n -> py_prefix n l = take (Z.to_nat n) l.
Proof.
  intros Hn. unfold py_prefix, slice_bound.
  destruct (Z.ltb_spec n 0); [lia|].
  destruct (Z.min_spec n (Z.of_nat (length l))) as [[Hlt ->]|[Hge ->]]; [reflexivity|].
  rewrite Nat2Z.id, firstn_all. symmetry. apply take_ge. lia.
Qed.

(** X11. With [max_entries >= 0] and a database write that does not fail,
    [add_entry] returns the new entry followed by the previous ones, cut to
    the [max_entries] first: the newest entry is kept, the oldest are dropped,
    and the list is never longer than [max_entries]. *)
Theorem add_entry_newest_first
    (json_dumps : gmap string Q -> string)
    (self : HistoryManager) (now : string) (history_list : list HistoryEntry)
    (data : entry_data) (db : database) :
  0 <= max_entries self ->
  (db_enabled self = true -> db_connect_error db = None) ->
  exists returned db',
    add_entry json_dumps self now history_list data db
    = (inr returned, new_entry now data :: history_list, db')
    /\ returned = take (Z.to_nat (max_entries self)) (new_entry now data :: history_list)
    /\ Z.of_nat (length returned)
       = Z.min (max_entries self) (Z.of_nat (length history_list) + 1).
Proof.
  intros Hmax Hdb. unfold add_entry.
  set (entry := new_entry now data).
  assert (exists db', (if db_enabled self then save_entry_to_db json_dumps entry db
                       else (ret tt, db)) = (inr tt, db')) as [db' ->].
  { destruct (db_enabled self); [|by eexists].
    unfold save_entry_to_db, _get_conn. rewrite Hdb by done.
    destruct (entry_sizes (h_original_shape entry)), (entry_sizes (h_enhanced_shape entry)).
    by eexists. }
  exists (take (Z.to_nat (max_entries self)) (entry :: history_list)), db'.
  assert (Z.of_nat (length (take (Z.to_nat (max_entries self)) (entry :: history_list)))
          = Z.min (max_entries self) (Z.of_nat (length history_list) + 1)) as Hlen.
  { rewrite length_take. simpl length. lia. }
  split; [|by split].
  destruct (Z.ltb_spec (max_entries self) (Z.of_nat (length (entry :: history_list)))).
  - by rewrite py_prefix_take.
  - rewrite take_ge; [reflexivity|]. lia.
Qed.

Lemma add_entry_newest_first_witness :
  exists returned db',
    add_entry (fun _ => "{}") {| max_entries := 1; db_enabled := true |} "2024-01-01 00:00:00"
              [new_entry "2023-12-31 23:59:59" {| d_filename := Some "old.png";
                                                  d_color_scheme := None;
                                                  d_stats := None;
                                                  d_original_shape := None;
                                                  d_enhanced_shape := None |}]
              {| d_filename := Some "new.png"; d_color_scheme := None; d_stats := None;
                 d_original_shape := Some (ShapeTuple [2; 3]);
                 d_enhanced_shape := Some (ShapeTuple [2; 3; 3]) |}
              {| db_connect_error := None; db_rows := []; db_last_id := 0 |}
    = (inr returned,
       new_entry "2024-01-01 00:00:00"
                 {| d_filename := Some "new.png"; d_color_scheme := None; d_stats := None;
                    d_original_shape := Some (ShapeTuple [2; 3]);
                    d_enhanced_shape := Some (ShapeTuple [2; 3; 3]) |}
       :: [new_entry "2023-12-31 23:59:59" {| d_filename := Some "old.png";
                                              d_color_scheme := None;
                                              d_stats := None;
                                              d_original_shape := None;
                                              d_enhanced_shape := None |}],
       db')
    /\ returned
       = take (Z.to_nat 1)
              (new_entry "2024-01-01 00:00:00"
                         {| d_filename := Some "new.png"; d_color_scheme := None;
                            d_stats := None;
                            d_original_shape := Some (ShapeTuple [2; 3]);
                            d_enhanced_shape := Some (ShapeTuple [2; 3; 3]) |}
               :: [new_entry "2023-12-31 23:59:59" {| d_filename := Some "old.png";
                                                      d_color_scheme := None;
                                                      d_stats := None;
                                                      d_original_shape := None;
                                                      d_enhanced_shape := None |}])
    /\ Z.of_nat (length returned) = Z.min 1 (Z.of_nat 1 + 1).
Proof.
  apply (add_entry_newest_first (fun _ => "{}") {| max_entries := 1; db_enabled := true |}).
  - simpl. lia.
  - reflexivity.
Defined.

(** X12. When the database is enabled and connecting fails, [add_entry]
    raises the connection's exception and writes no row, but the caller's
    list has already received the new entry at its head. *)
Theorem add_entry_database_failure
    (json_dumps : gmap string Q -> string)
    (self : HistoryManager) (now : string) (history_list : list HistoryEntry)
    (data : entry_data) (db : database) (e : exn) :
  db_enabled self = true ->
  db_connect_error db = Some e ->
  add_entry json_dumps self now history_list data db
  = (inl e, new_entry now data :: history_list, db).
Proof.
  intros Hen Herr. unfold add_entry, save_entry_to_db, _get_conn.
  by rewrite Hen, Herr.
Qed.

Lemma add_entry_database_failure_witness :
  add_entry (fun _ => "{}") {| max_entries := 20; db_enabled := true |} "2024-01-01 00:00:00" []
            {| d_filename := None; d_color_scheme := None; d_stats := None;
               d_original_shape := None; d_enhanced_shape := None |}
            {| db_connect_error := Some (Exn "OperationalError"); db_rows := []; db_last_id := 0 |}
  = (inl (Exn "OperationalError"),
     [new_entry "2024-01-01 00:00:00"
                {| d_filename := None; d_color_scheme := None; d_stats := None;
                   d_original_shape := None; d_enhanced_shape := None |}],
     {| db_connect_error := Some (Exn "OperationalError"); db_rows := []; db_last_id := 0 |}).
Proof.
  apply (add_entry_database_failure (fun _ => "{}")
           {| max_entries := 20; db_enabled := true |}); reflexivity.
Defined.

(** ** The database *)

Lemma where_clause_none (sql_like sql_eq sql_le : string -> string -> bool) (rows : list row) :
  sql_where (where_clause sql_like sql_eq sql_le None) rows = rows.
Proof.
  unfold sql_where, where_clause. simpl.
  induction rows as [|r rows IH]; simpl; [reflexivity|]. by rewrite IH.
Qed.

(** X13. An entry saved with [save_entry_to_db] is the first entry of the
    first page [load_history_from_db] returns: time, file name and scheme come
    back unchanged, the statistics through the JSON text, and each shape as the
    pair (height, width) of a tuple with two or more dimensions, (0, 0) for any
    other shape. *)
Theorem save_then_load
    (json_dumps : gmap string Q -> string)
    (json_loads : string -> result (gmap string Q))
    (sql_like sql_eq sql_le : string -> string -> bool)
    (entry : HistoryEntry) (db : database) (limit : option Z) (page_size : Z) :
  db_connect_error db = None ->
  0 < page_size ->
  exists db' loaded rest,
    save_entry_to_db json_dumps entry db = (inr tt, db')
    /\ load_history_from_db json_loads sql_like sql_eq sql_le limit None 1 page_size db'
       = inr (loaded :: rest)
    /\ h_timestamp loaded = h_timestamp entry
    /\ h_filename loaded = h_filename entry
    /\ h_color_scheme loaded = h_color_scheme entry
    /\ h_stats loaded = (if String.eqb (json_dumps (h_stats entry)) "" then ∅
                         else match json_loads (json_dumps (h_stats entry)) with
                              | inr stats => stats
                              | inl _ => ∅
                              end)
    /\ h_original_shape loaded
       = ShapeTuple [snd (entry_sizes (h_original_shape entry));
                     fst (entry_sizes (h_original_shape entry))]
    /\ h_enhanced_shape loaded
       = ShapeTuple [snd (entry_sizes (h_enhanced_shape entry));
                     fst (entry_sizes (h_enhanced_shape entry))].
Proof.
  intros Hconn Hsize.
  unfold save_entry_to_db, _get_conn. rewrite Hconn.
  destruct (entry_sizes (h_original_shape entry)) as [ow oh] eqn:Ho.
  destruct (entry_sizes (h_enhanced_shape entry)) as [ew eh] eqn:He.
  exists (sql_insert (h_timestamp entry, h_filename entry, h_color_scheme entry,
                      json_dumps (h_stats entry), ow, oh, ew, eh) db).
  unfold load_history_from_db, _get_conn, sql_insert.
  cbn [db_connect_error db_rows bind ret]. rewrite Hconn. cbn [bind].
  rewrite where_clause_none, rev_app_distr. cbn [rev app].
  replace (negb (1 =? 0) && negb (page_size =? 0)) with true
    by (symmetry; apply andb_true_iff; split; apply negb_true_iff, Z.eqb_neq; lia).
  unfold sql_limit_offset. replace ((1 - 1) * page_size) with 0 by lia.
  destruct (Z.ltb_spec page_size 0); [lia|].
  change (Z.to_nat 0) with 0%nat. rewrite drop_0.
  destruct (Z.to_nat page_size) as [|n] eqn:Hn; [lia|].
  cbn [take map]. eexists. eexists. split; [reflexivity|]. split; [reflexivity|].
  by repeat split.
Qed.

Lemma save_then_load_witness :
  exists db' loaded rest,
    save_entry_to_db (fun _ => "{}")
      {| h_timestamp := "2024-01-01 00:00:00"; h_filename := "chest.png";
         h_color_scheme := "标准"; h_stats := ∅;
         h_original_shape := ShapeTuple [480; 640];
         h_enhanced_shape := ShapeTuple [480; 640; 3] |}
      {| db_connect_error := None; db_rows := []; db_last_id := 0 |}
    = (inr tt, db')
    /\ load_history_from_db (fun _ => inr ∅) (fun _ _ => true) String.eqb String.leb
                            (Some 20) None 1 10 db'
       = inr (loaded :: rest)
    /\ h_timestamp loaded = "2024-01-01 00:00:00"
    /\ h_filename loaded = "chest.png"
    /\ h_color_scheme loaded = "标准"
    /\ h_stats loaded = (if String.eqb "{}" "" then ∅
                         else match (inr ∅ : result (gmap string Q)) with
                              | inr stats => stats
                              | inl _ => ∅
                              end)
    /\ h_original_shape loaded
       = ShapeTuple [snd (entry_sizes (ShapeTuple [480; 640]));
                     fst (entry_sizes (ShapeTuple [480; 640]))]
    /\ h_enhanced_shape loaded
       = ShapeTuple [snd (entry_sizes (ShapeTuple [480; 640; 3]));
                     fst (entry_sizes (ShapeTuple [480; 640; 3]))].
Proof.
  apply (save_then_load (fun _ => "{}") (fun _ => inr ∅) (fun _ _ => true)
           String.eqb String.leb
           {| h_timestamp := "2024-01-01 00:00:00"; h_filename := "chest.png";
              h_color_scheme := "标准"; h_stats := ∅;
              h_original_shape := ShapeTuple [480; 640];
              h_enhanced_shape := ShapeTuple [480; 640; 3] |}
           {| db_connect_error := None; db_rows := []; db_last_id := 0 |}
           (Some 20) 10).
  - reflexivity.
  - lia.
Defined.

(** X14. With a page and a page size that are not zero (the defaults are 1
    and 10), [load_history_from_db] ignores [limit]: it returns what it
    returns without a limit, and never more than [page_size] entries when
    that is not negative. *)
Theorem load_history_ignores_limit
    (json_loads : string -> result (gmap string Q))
    (sql_like sql_eq sql_le : string -> string -> bool)
    (limit : option Z) (filters : option query_filters) (page page_size : Z)
    (db : database) :
  page <> 0 ->
  page_size <> 0 ->
  load_history_from_db json_loads sql_like sql_eq sql_le limit filters page page_size db
  = load_history_from_db json_loads sql_like sql_eq sql_le None filters page page_size db
  /\ (0 <= page_size ->
      forall entries,
        load_history_from_db json_loads sql_like sql_eq sql_le limit filters page page_size db
        = inr entries ->
        Z.of_nat (length entries) <= page_size).
Proof.
  intros Hp Hs. unfold load_history_from_db.
  replace (negb (page =? 0) && negb (page_size =? 0)) with true
    by (symmetry; apply andb_true_iff; split; by apply negb_true_iff, Z.eqb_neq).
  split; [reflexivity|].
  intros Hnn entries. destruct (_get_conn db); [discriminate|]. cbn [bind ret].
  intros [= <-]. rewrite length_map. unfold sql_limit_offset.
  destruct (Z.ltb_spec page_size 0); [lia|]. rewrite length_take. lia.
Qed.

Lemma load_history_ignores_limit_witness :
  load_history_from_db (fun _ => inr ∅) (fun _ _ => true) String.eqb String.leb
                       (Some 20) None 1 10
                       {| db_connect_error := None; db_rows := []; db_last_id := 0 |}
  = load_history_from_db (fun _ => inr ∅) (fun _ _ => true) String.eqb String.leb
                         None None 1 10
                         {| db_connect_error := None; db_rows := []; db_last_id := 0 |}
  /\ (0 <= 10 ->
      forall entries,
        load_history_from_db (fun _ => inr ∅) (fun _ _ => true) String.eqb String.leb
                             (Some 20) None 1 10
                             {| db_connect_error := None; db_rows := []; db_last_id := 0 |}
        = inr entries ->
        Z.of_nat (length entries) <= 10).
Proof.
  apply (load_history_ignores_limit (fun _ => inr ∅) (fun _ _ => true) String.eqb String.leb
           (Some 20) None 1 10
           {| db_connect_error := None; db_rows := []; db_last_id := 0 |}); lia.
Defined.

(** X15. For the same filters [count_history_entries] counts exactly the
    entries the pages of [load_history_from_db] show: page [page] holds
    [min(page_size, count - (page - 1) * page_size)] entries, none when that
    is negative. *)
Theorem count_matches_pages
    (json_loads : string -> result (gmap string Q))
    (sql_like sql_eq sql_le : string -> string -> bool)
    (limit : option Z) (filters : option query_filters) (page page_size : Z)
    (db : database) :
  db_connect_error db = None ->
  1 <= page ->
  1 <= page_size ->
  exists entries count,
    load_history_from_db json_loads sql_like sql_eq sql_le limit filters page page_size db
    = inr entries
    /\ count_history_entries sql_like sql_eq sql_le filters db = inr count
    /\ Z.of_nat (length entries)
       = Z.min page_size (Z.max 0 (count - (page - 1) * page_size)).
Proof.
  intros Hconn Hp Hs.
  unfold load_history_from_db, count_history_entries, _get_conn. rewrite Hconn.
  cbn [bind ret].
  replace (negb (page =? 0) && negb (page_size =? 0)) with true
    by (symmetry; apply andb_true_iff; split; apply negb_true_iff, Z.eqb_neq; lia).
  eexists. eexists. split; [reflexivity|]. split; [reflexivity|].
  rewrite length_map. unfold sql_limit_offset.
  destruct (Z.ltb_spec page_size 0); [lia|].
  rewrite length_take, length_drop, length_rev.
  assert (0 <= (page - 1) * page_size) as Hoff by nia.
  set (offset := (page - 1) * page_size) in *. lia.
Qed.

Lemma count_matches_pages_witness :
  exists entries count,
    load_history_from_db (fun _ => inr ∅) (fun _ _ => true) String.eqb String.leb
                         None None 2 10
                         {| db_connect_error := None; db_rows := []; db_last_id := 0 |}
    = inr entries
    /\ count_history_entries (fun _ _ => true) String.eqb String.leb None
                             {| db_connect_error := None; db_rows := []; db_last_id := 0 |}
       = inr count
    /\ Z.of_nat (length entries) = Z.min 10 (Z.max 0 (count - (2 - 1) * 10)).
Proof.
  apply (count_matches_pages (fun _ => inr ∅) (fun _ _ => true) String.eqb String.leb
           None None 2 10
           {| db_connect_error := None; db_rows := []; db_last_id := 0 |});
    [reflexivity|lia|lia].
Defined.

Lemma sizes_agree (s : shape_value) :
  tuple_or_short s = true -> batch_sizes s = entry_sizes s.
Proof.
  destruct s as [dims|dims]; simpl.
  - intros _. unfold batch_sizes. simpl. by destruct dims as [|h [|w rest]].
  - intros Hshort. apply Nat.ltb_lt in Hshort. unfold batch_sizes. simpl.
    destruct dims as [|h [|w rest]]; simpl in *; [reflexivity|reflexivity|lia].
Qed.

(** X16. For entries whose shapes are tuples (or have fewer than two
    dimensions) a batch written by [save_entries_to_db] leaves the database as
    writing the entries one after the other with [save_entry_to_db] does. *)
Theorem save_entries_as_singles
    (json_dumps : gmap string Q -> string)
    (entries : list HistoryEntry) (db : database) :
  db_connect_error db = None ->
  Forall (fun entry => tuple_or_short (h_original_shape entry) = true
                       /\ tuple_or_short (h_enhanced_shape entry) = true) entries ->
  save_entries_to_db json_dumps entries db
  = (inr tt, foldl (fun d entry => snd (save_entry_to_db json_dumps entry d)) db entries).
Proof.
  intros Hconn Hall. unfold save_entries_to_db.
  destruct entries as [|e0 entries0] eqn:Hentries; [reflexivity|]. rewrite <- Hentries in *.
  unfold _get_conn. rewrite Hconn. unfold ret. f_equal.
  clear Hentries e0 entries0.
  revert db Hconn. induction Hall as [|entry entries [Ho He] _ IH]; intros db Hconn;
    [reflexivity|].
  cbn [map foldl]. rewrite (sizes_agree _ Ho), (sizes_agree _ He).
  assert (snd (save_entry_to_db json_dumps entry db)
          = sql_insert (let '(ow, oh) := entry_sizes (h_original_shape entry) in
                        let '(ew, eh) := entry_sizes (h_enhanced_shape entry) in
                        (h_timestamp entry, h_filename entry, h_color_scheme entry,
                         json_dumps (h_stats entry), ow, oh, ew, eh)) db) as Hsingle.
  { unfold save_entry_to_db, _get_conn. rewrite Hconn.
    by destruct (entry_sizes (h_original_shape entry)),
                (entry_sizes (h_enhanced_shape entry)). }
  rewrite Hsingle. apply IH.
  by destruct (entry_sizes (h_original_shape entry)),
              (entry_sizes (h_enhanced_shape entry)).
Qed.

(** A shape read back from JSON is a list: the single write stores no size
    for it, the batch write stores them. *)
Lemma entry_sizes_list_differ :
  entry_sizes (ShapeList [480; 640]) = (0, 0)
  /\ batch_sizes (ShapeList [480; 640]) = (640, 480).
Proof. by split. Qed.

Lemma save_entries_as_singles_witness :
  save_entries_to_db (fun _ => "{}") [sample_entry; sample_entry] empty_database
  = (inr tt,
     foldl (fun d entry => snd (save_entry_to_db (fun _ => "{}") entry d))
           empty_database [sample_entry; sample_entry]).
Proof.
  apply (save_entries_as_singles (fun _ => "{}") [sample_entry; sample_entry] empty_database).
  - reflexivity.
  - repeat constructor.
Defined.

(** ** The pages of the query results *)

Lemma py_slice_take_drop {A} (a b : nat) (l : list A) :
  py_slice (Z.of_nat a) (Z.of_nat a + Z.of_nat b) l = take b (drop a l).
Proof.
  unfold py_slice, slice_bound.
  destruct (Z.ltb_spec (Z.of_nat a) 0); [lia|].
  destruct (Z.ltb_spec (Z.of_nat a + Z.of_nat b) 0); [lia|].
  destruct (Nat.le_gt_cases (length l) a) as [Hge|Hlt].
  - rewrite (drop_ge l a) by done. rewrite take_nil.
    replace (Z.to_nat (Z.min (Z.of_nat a) (Z.of_nat (length l)))) with (length l) by lia.
    rewrite drop_all. apply take_nil.
  - replace (Z.to_nat (Z.min (Z.of_nat a) (Z.of_nat (length l)))) with a by lia.
    destruct (Nat.le_gt_cases (a + b) (length l)) as [Hfit|Hover].
    + f_equal. lia.
    + rewrite (take_ge (drop a l) b) by (rewrite length_drop; lia).
      apply take_ge. rewrite length_drop. lia.
Qed.

Lemma concat_chunks {A} (n : nat) (k : nat) :
  forall l : list A,
    (length l <= n * k)%nat ->
    concat (map (fun i => take n (drop (n * i) l)) (seq 0 k)) = l.
Proof.
  induction k as [|k IH]; intros l Hlen.
  - simpl. destruct l; [reflexivity|simpl in Hlen; lia].
  - rewrite <- cons_seq, <- fmap_S_seq. cbn [map concat].
    rewrite Nat.mul_0_r, drop_0.
    change (S <$> seq 0 k) with (map S (seq 0 k)). rewrite map_map.
    rewrite (map_ext _ (fun i => take n (drop (n * i) (drop n l)))).
    + rewrite IH; [apply take_drop|]. rewrite length_drop. lia.
    + intros i. rewrite drop_drop. do 2 f_equal. lia.
Qed.

(** X17. The pages of [show_history_query_results] lose and repeat nothing:
    the pages 1 to [total_pages], one after the other, are the records, and
    each of these pages holds between one and five of them. *)
Theorem paginated_records_cover {A} (records : list A) :
  concat (map (fun i => paginated_records records (Z.of_nat i + 1))
              (seq 0 (Z.to_nat (total_pages records))))
  = records
  /\ Forall (fun i => (1 <= length (paginated_records records (Z.of_nat i + 1)) <= 5)%nat)
            (seq 0 (Z.to_nat (total_pages records))).
Proof.
  unfold paginated_records, total_pages, page_size_ui.
  set (n := length records).
  assert (forall i : nat,
             py_slice ((Z.of_nat i + 1 - 1) * 5) ((Z.of_nat i + 1 - 1) * 5 + 5) records
             = take 5 (drop (5 * i) records)) as Hpage.
  { intros i. rewrite <- (py_slice_take_drop (5 * i) 5). f_equal; lia. }
  assert (5 * Z.to_nat ((Z.of_nat n + 5 - 1) / 5) < n + 5
          /\ n <= 5 * Z.to_nat ((Z.of_nat n + 5 - 1) / 5))%nat as [Hup Hlow].
  { pose proof (Z.div_mod (Z.of_nat n + 5 - 1) 5 ltac:(lia)) as Hdm.
    pose proof (Z.mod_pos_bound (Z.of_nat n + 5 - 1) 5 ltac:(lia)) as Hmod.
    assert (0 <= (Z.of_nat n + 5 - 1) / 5) by (apply Z.div_pos; lia).
    lia. }
  split.
  - rewrite (map_ext _ (fun i => take 5 (drop (5 * i) records))) by exact Hpage.
    apply concat_chunks. fold n. lia.
  - apply Forall_forall. intros i Hi. apply elem_of_seq in Hi. rewrite Hpage.
    rewrite length_take, length_drop. fold n. lia.
Qed.

(** * The pipeline of the application *)

Lemma calculate_image_stats_nonempty (gray : list (list Z)) :
  flatten gray <> [] -> exists st, calculate_image_stats (Arr2 gray) = inr st.
Proof.
  intros Hne. unfold calculate_image_stats. rewrite try_except_reraise. cbn [_to_gray bind ret].
  destruct (flatten gray) as [|x l]; [done|]. cbn [np_min np_max bind ret]. eauto.
Qed.

(** X18. Once the upload decodes to a non-empty gray image and the registry
    has its default scheme, [process_single_image] without equalization
    succeeds for every gain, every offset that fits a double and every scheme
    name; the enhanced image has the height and width of the decoded one, and
    the statistics are those of the decoded image, before any contrast or
    brightness change. *)
Theorem process_single_image_gray
    (COLOR_SCHEMES : gmap string (list band))
    (CLAHE_apply : list (list Z) -> result (list (list Z)))
    (codecs : list Z -> option ndarray)
    (file : uploaded_file) (ctl : controls) (now : string)
    (gray : list (list Z)) (standard : list band) :
  cv2_imdecode codecs (up_bytes file) = inr (Some (Arr2 gray)) ->
  rectangular gray = true ->
  flatten gray <> [] ->
  c_apply_clahe ctl = false ->
  fits_double (c_brightness ctl) = true ->
  COLOR_SCHEMES !! "标准" = Some standard ->
  exists r,
    process_single_image COLOR_SCHEMES CLAHE_apply codecs file ctl now = inr r
    /\ res_filename r = up_name file
    /\ res_original_image r = Arr2 gray
    /\ shape0 (res_enhanced_image r) = shape0 gray
    /\ shape1 (res_enhanced_image r) = shape1 gray
    /\ calculate_image_stats (Arr2 gray) = inr (res_stats r).
Proof.
  intros Hdec Hrect Hne Hclahe Hfits Hstd.
  apply fits_double_Some in Hfits as [b Hb].
  destruct (calculate_image_stats_nonempty gray Hne) as [st Hst].
  set (pre := map (map (scale_abs (c_contrast ctl) b)) gray).
  set (layers := default standard (COLOR_SCHEMES !! c_color_scheme ctl)).
  assert (get_layers COLOR_SCHEMES (c_color_scheme ctl) = inr layers) as Hget
      by (unfold get_layers; by rewrite Hstd).
  exists {| res_filename := up_name file;
            res_original_image := Arr2 gray;
            res_enhanced_image := map (map (paint (map store_band layers))) pre;
            res_stats := st;
            res_timestamp := now |}.
  cbn [res_filename res_original_image res_enhanced_image res_stats].
  split; [|split; [done|split; [done|split; [|split; [|done]]]]].
  - unfold process_single_image. rewrite try_except_reraise, Hdec, Hclahe. cbn [bind].
    rewrite (preprocess_image_remap _ _ _ _ b) by done. cbn [bind]. fold pre.
    rewrite (enhance_pseudocolor_gray _ _ layers) by (done || by apply rectangular_map).
    cbn [bind]. by rewrite Hst.
  - unfold pre. by rewrite !shape0_map.
  - unfold pre. by rewrite !shape1_map.
Qed.

Lemma process_single_image_gray_witness :
  exists r,
    process_single_image {[ "标准" := scenario_scheme ]} (fun gray => ret gray)
                         (fun _ => Some (Arr2 scenario_gray))
                         {| up_name := "chest.png"; up_bytes := [137; 80; 78; 71] |}
                         {| c_apply_clahe := false; c_contrast := 2; c_brightness := -50;
                            c_color_scheme := "高对比度" |}
                         "2024-01-01 00:00:00"
    = inr r
    /\ res_filename r = up_name {| up_name := "chest.png"; up_bytes := [137; 80; 78; 71] |}
    /\ res_original_image r = Arr2 scenario_gray
    /\ shape0 (res_enhanced_image r) = shape0 scenario_gray
    /\ shape1 (res_enhanced_image r) = shape1 scenario_gray
    /\ calculate_image_stats (Arr2 scenario_gray) = inr (res_stats r).
Proof.
  apply (process_single_image_gray {[ "标准" := scenario_scheme ]} (fun gray => ret gray)
           (fun _ => Some (Arr2 scenario_gray))
           {| up_name := "chest.png"; up_bytes := [137; 80; 78; 71] |}
           {| c_apply_clahe := false; c_contrast := 2; c_brightness := -50;
              c_color_scheme := "高对比度" |}
           "2024-01-01 00:00:00" scenario_gray scenario_scheme);
    try reflexivity.
  discriminate.
Defined.

(** * The legend and the colour image *)

Lemma cell_map {A B} (f : A -> B) (a : list (list A)) (r c : nat) :
  cell (map (map f) a) r c = f <$> cell a r c.
Proof.
  unfold cell. change (map (map f) a) with (map f <$> a). rewrite list_lookup_fmap.
  destruct (a !! r) as [row|]; simpl; [|reflexivity].
  change (map f row) with (f <$> row). apply list_lookup_fmap.
Qed.

Lemma intensity_band_store (layers : list band) :
  forallb intensity_band layers = true -> map store_band layers = layers.
Proof.
  rewrite forallb_forall. intros H.
  rewrite <- (map_id layers) at 2. apply map_ext_in.
  intros [[lo hi] c] Hb. specialize (H _ Hb). cbv beta iota delta [intensity_band] in H.
  apply andb_true_iff in H as [_ Hc].
  unfold store_band. by rewrite color_to_uint8_id.
Qed.

(** X19. The legend is the key of the colour image: for a scheme whose bands
    lie in the intensity domain, a pixel of intensity [v] of an 8-bit gray
    image has in the colour image the colour every row of the legend shows in
    column [v]. *)
Theorem legend_matches_image
    (COLOR_SCHEMES : gmap string (list band)) (name : string)
    (layers : list band) (gray : list (list Z))
    (legend out : list (list color))
    (r c : nat) (v : Z) (legend_row : nat) :
  get_layers COLOR_SCHEMES name = inr layers ->
  forallb intensity_band layers = true ->
  uint8_image gray = true ->
  generate_legend COLOR_SCHEMES name = inr legend ->
  enhance_pseudocolor COLOR_SCHEMES (Arr2 gray) name = inr out ->
  cell gray r c = Some v ->
  (legend_row < 40)%nat ->
  is_u8 v = true
  /\ cell out r c = cell legend legend_row (Z.to_nat v).
Proof.
  intros Hget Hok Hu8 Hlegend Hout Hcell Hlr. rename legend_row into lr.
  assert (is_u8 v = true) as Hv.
  { unfold uint8_image in Hu8. apply andb_true_iff in Hu8 as [_ Hu8].
    rewrite forallb_forall in Hu8. unfold cell in Hcell.
    destruct (gray !! r) as [row|] eqn:Hrow; [|discriminate].
    apply list_elem_of_lookup_2, list_elem_of_In, Hu8 in Hrow.
    rewrite forallb_forall in Hrow.
    by apply list_elem_of_lookup_2, list_elem_of_In, Hrow in Hcell. }
  split; [exact Hv|]. apply is_u8_spec in Hv.
  rewrite (enhance_pseudocolor_gray _ _ layers) in Hout
    by (done || by apply uint8_image_rectangular).
  injection Hout as <-.
  unfold generate_legend in Hlegend. rewrite try_except_reraise, Hget in Hlegend.
  cbn [bind ret] in Hlegend. injection Hlegend as <-.
  rewrite cell_map, Hcell. cbn [fmap option_fmap option_map].
  rewrite assign_columns_loop_cell, np_zeros3_cell by (done || lia).
  cbn [fmap option_fmap option_map]. f_equal.
  rewrite intensity_band_store by done. unfold paint.
  rewrite paint_from_slice_band by (done || lia).
  by rewrite Z2Nat.id by lia.
Qed.

Lemma legend_matches_image_witness :
  is_u8 150 = true
  /\ cell scenario_output 1 0
     = cell (foldl assign_columns (np_zeros3 40 256) scenario_scheme) 39 (Z.to_nat 150).
Proof.
  apply (legend_matches_image {[ "标准" := scenario_scheme ]} "标准" scenario_scheme
           scenario_gray (foldl assign_columns (np_zeros3 40 256) scenario_scheme)
           scenario_output 1 0 150 39);
    try reflexivity.
  lia.
Defined.
